(** * The TTS audio helpers of the chat client

    A shallow embedding of the audio helpers of the chat client
    ([base64ToArrayBuffer], [pcmToWav], [writeString] and the conversion
    steps of [handleTtsClick]) together with the ECMAScript built-ins they
    call ([ArrayBuffer], [DataView], [Int16Array], [Blob],
    [String.prototype.match], [parseInt]).

    Conventions of the model:
    - a JavaScript number that is an integer is a [Z]; the Number that
      [parseInt] returns for a run of digits is that integer rounded as a
      double ([toDouble]), or +Infinity;
    - a byte is a [Z] in [0, 256); an [ArrayBuffer] is a [list Z] of bytes;
    - a string is a sequence of 8-bit characters: the binary strings of
      [atob] are exactly that, and the markers of the container and the
      pattern of the sample rate are ASCII;
    - objects live in a store ([heap]) and are passed by reference ([loc]);
      a thrown exception is the left summand of the result;
    - typed arrays read their buffer in little-endian order, the byte order
      of every platform the client runs on. *)

From Stdlib Require Import ZArith List Lia String Ascii.
From Stdlib Require Floats.SpecFloat.
From stdpp Require Import base option list strings gmap.
Import ListNotations.

Local Open Scope Z_scope.

(** ** Numeric conversions *)

Definition ToUint8 (v : Z) : Z := v mod 2 ^ 8.
Definition ToUint16 (v : Z) : Z := v mod 2 ^ 16.
Definition ToUint32 (v : Z) : Z := v mod 2 ^ 32.
Definition ToInt16 (v : Z) : Z :=
  let u := v mod 2 ^ 16 in
  if 2 ^ 15 <=? u then u - 2 ^ 16 else u.

(** NumericToRawBytes, little-endian: the [n] low-order bytes of [v]. *)
Fixpoint rawBytes (n : nat) (v : Z) : list Z :=
  match n with
  | O => []
  | S k => v mod 256 :: rawBytes k (v / 256)
  end.

(** The [littleEndian] argument of the [DataView] setters. *)
Definition ordered (littleEndian : bool) (bs : list Z) : list Z :=
  if littleEndian then bs else rev bs.

(** ** Objects, store and exceptions *)

Definition loc := positive.

Inductive object :=
| ArrayBuffer (bytes : list Z)
| Uint8Array (buffer : loc)
| Int16Array (buffer : loc)
| NumberArray (elems : list Z).

Abbreviation heap := (gmap loc object).

Inductive exn := RangeError | TypeError | InvalidCharacterError.

Definition M (A : Type) : Type := heap -> exn + (A * heap).

Definition ret {A} (a : A) : M A := fun h => inr (a, h).
Definition throw {A} (e : exn) : M A := fun _ => inl e.
Definition bind {A B} (m : M A) (k : A -> M B) : M B :=
  fun h => match m h with
           | inl e => inl e
           | inr (a, h') => k a h'
           end.

Declare Scope js_scope.
Delimit Scope js_scope with js.
Notation "'let*' x ':=' m 'in' k" := (bind m (fun x => k))
  (at level 10, x name, m at level 100, k at level 200) : js_scope.
Notation "m ';;' k" := (bind m (fun _ => k))
  (at level 100, k at level 200, right associativity) : js_scope.
Local Open Scope js_scope.

(** ** Typed-array element access *)

(** The elements of an [Int16Array] laid over a byte sequence. *)
Fixpoint int16s (bytes : list Z) : list Z :=
  match bytes with
  | b0 :: b1 :: rest => ToInt16 (b0 + 256 * b1) :: int16s rest
  | _ => []
  end.

(** The indexed elements of an array-like object, [None] for an object
    that has none. *)
Definition elements (h : heap) (a : loc) : option (list Z) :=
  match h !! a with
  | Some (NumberArray elems) => Some elems
  | Some (Uint8Array b) =>
      match h !! b with
      | Some (ArrayBuffer bytes) => Some bytes
      | _ => None
      end
  | Some (Int16Array b) =>
      match h !! b with
      | Some (ArrayBuffer bytes) => Some (int16s bytes)
      | _ => None
      end
  | _ => None
  end.

(** [a.length] *)
Definition get_length (a : loc) : M Z :=
  fun h => match elements h a with
           | Some es => inr (Z.of_nat (length es), h)
           | None => inl TypeError
           end.

(** A value read from an array: a number, or [undefined] out of range. *)
Inductive value := Num (z : Z) | Undefined.

(** [a[i]] *)
Definition get_index (a : loc) (i : nat) : M value :=
  fun h => match elements h a with
           | Some es => inr (from_option Num Undefined (es !! i), h)
           | None => inl TypeError
           end.

(** ToNumber followed by an integer conversion sends [undefined] (NaN)
    to 0. *)
Definition integral (v : value) : Z :=
  match v with Num z => z | Undefined => 0 end.

(** ** ArrayBuffer, DataView and Blob *)

(** [new ArrayBuffer(len)]: a fresh zero-filled buffer. *)
Definition new_ArrayBuffer (len : Z) : M loc :=
  fun h =>
    if len <? 0 then inl RangeError
    else let b := fresh (dom h) in
         inr (b, <[b := ArrayBuffer (repeat 0 (Z.to_nat len))]> h).

(** [new DataView(buffer)]: a view of the whole buffer. *)
Record DataView := { dv_buffer : loc }.
Definition new_DataView (buffer : loc) : DataView := {| dv_buffer := buffer |}.

(** Overwrites [length bs] bytes from index [off]. *)
Definition splice (off : nat) (bs bytes : list Z) : list Z :=
  take off bytes ++ bs ++ drop (off + length bs)%nat bytes.

(** SetViewValue: a [RangeError] unless the bytes fit in the view. *)
Definition setBytes (view : DataView) (byteOffset : Z) (bs : list Z) : M unit :=
  fun h =>
    match h !! dv_buffer view with
    | Some (ArrayBuffer bytes) =>
        if (0 <=? byteOffset)
           && (byteOffset + Z.of_nat (length bs) <=? Z.of_nat (length bytes))
        then inr (tt, <[dv_buffer view :=
                         ArrayBuffer (splice (Z.to_nat byteOffset) bs bytes)]> h)
        else inl RangeError
    | _ => inl TypeError
    end.

Definition setUint8 (view : DataView) (byteOffset v : Z) : M unit :=
  setBytes view byteOffset (rawBytes 1 (ToUint8 v)).
Definition setUint16 (view : DataView) (byteOffset v : Z) (littleEndian : bool)
  : M unit :=
  setBytes view byteOffset (ordered littleEndian (rawBytes 2 (ToUint16 v))).
Definition setUint32 (view : DataView) (byteOffset v : Z) (littleEndian : bool)
  : M unit :=
  setBytes view byteOffset (ordered littleEndian (rawBytes 4 (ToUint32 v))).
Definition setInt16 (view : DataView) (byteOffset v : Z) (littleEndian : bool)
  : M unit :=
  setBytes view byteOffset (ordered littleEndian (rawBytes 2 (ToInt16 v))).

Record Blob := { blob_bytes : list Z; blob_type : string }.

(** [new Blob([buffer], { type })]: the blob holds a copy of the bytes. *)
Definition new_Blob (buffer : loc) (type : string) : M Blob :=
  fun h => match h !! buffer with
           | Some (ArrayBuffer bytes) =>
               inr ({| blob_bytes := bytes; blob_type := type |}, h)
           | _ => inl TypeError
           end.

(** ** The helpers of the client *)

(** [string.charCodeAt(i)] of the character at hand. *)
Definition charCode (c : ascii) : Z := Z.of_nat (nat_of_ascii c).

(** The loop of [writeString], from index [i] on. *)
Fixpoint writeString_from (view : DataView) (offset : Z) (string : string)
    (i : Z) : M unit :=
  match string with
  | EmptyString => ret tt
  | String c rest =>
      setUint8 view (offset + i) (charCode c);;
      writeString_from view offset rest (i + 1)
  end.

Definition writeString (view : DataView) (offset : Z) (string : string)
  : M unit :=
  writeString_from view offset string 0.

(** The loop of [pcmToWav] over the indices [idxs]; the result is the final
    value of [offset]. The bound [pcmData.length] is the length on entry:
    the body writes the output buffer only. *)
Fixpoint writeSamples (view : DataView) (pcmData : loc) (idxs : list nat)
    (offset : Z) : M Z :=
  match idxs with
  | [] => ret offset
  | i :: rest =>
      let* v := get_index pcmData i in
      setInt16 view offset (integral v) true;;
      writeSamples view pcmData rest (offset + 2)
  end.

Definition pcmToWav (pcmData : loc) (sampleRate : Z) : M Blob :=
  let numChannels := 1 in
  let bitsPerSample := 16 in
  let byteRate := sampleRate * numChannels * (bitsPerSample / 8) in
  let blockAlign := numChannels * (bitsPerSample / 8) in
  let* len := get_length pcmData in
  let* buffer := new_ArrayBuffer (44 + len * 2) in
  let view := new_DataView buffer in
  writeString view 0 "RIFF";;
  let* len := get_length pcmData in
  setUint32 view 4 (36 + len * 2) true;;
  writeString view 8 "WAVE";;
  writeString view 12 "fmt ";;
  setUint32 view 16 16 true;;
  setUint16 view 20 1 true;;
  setUint16 view 22 numChannels true;;
  setUint32 view 24 sampleRate true;;
  setUint32 view 28 byteRate true;;
  setUint16 view 32 blockAlign true;;
  setUint16 view 34 bitsPerSample true;;
  writeString view 36 "data";;
  let* len := get_length pcmData in
  setUint32 view 40 (len * 2) true;;
  let* len := get_length pcmData in
  let* _ := writeSamples view pcmData (seq 0 (Z.to_nat len)) 44 in
  new_Blob buffer "audio/wav".

(** ** The conversion steps around the encoder *)

(** [new Uint8Array(len)]: a view of a fresh zero-filled buffer. *)
Definition new_Uint8Array (len : Z) : M loc :=
  let* buffer := new_ArrayBuffer len in
  fun h => let a := fresh (dom h) in inr (a, <[a := Uint8Array buffer]> h).

(** [bytes[i] = v] on a [Uint8Array]: an index out of range is ignored. *)
Definition set_index (a : loc) (i : nat) (v : Z) : M unit :=
  fun h =>
    match h !! a with
    | Some (Uint8Array b) =>
        match h !! b with
        | Some (ArrayBuffer bytes) =>
            inr (tt, <[b := ArrayBuffer (<[i := ToUint8 v]> bytes)]> h)
        | _ => inl TypeError
        end
    | _ => inl TypeError
    end.

(** [bytes.buffer] *)
Definition get_buffer (a : loc) : M loc :=
  fun h => match h !! a with
           | Some (Uint8Array b) | Some (Int16Array b) => inr (b, h)
           | _ => inl TypeError
           end.

(** [new Int16Array(buffer)]: a [RangeError] when the byte length of the
    buffer is not a multiple of the element size. *)
Definition new_Int16Array (buffer : loc) : M loc :=
  fun h =>
    match h !! buffer with
    | Some (ArrayBuffer bytes) =>
        if Z.of_nat (length bytes) mod 2 =? 0
        then let a := fresh (dom h) in inr (a, <[a := Int16Array buffer]> h)
        else inl RangeError
    | _ => inl TypeError
    end.

(** The loop of [base64ToArrayBuffer], from index [i] on. *)
Fixpoint fillBytes (bytes : loc) (binaryString : string) (i : nat) : M unit :=
  match binaryString with
  | EmptyString => ret tt
  | String c rest =>
      set_index bytes i (charCode c);;
      fillBytes bytes rest (S i)
  end.

(** A string test of the regular expression and of [startsWith]. *)
Fixpoint stripPrefix (p s : string) : option string :=
  match p, s with
  | EmptyString, _ => Some s
  | String a p', String b s' =>
      if Ascii.eqb a b then stripPrefix p' s' else None
  | String _ _, EmptyString => None
  end.

Definition startsWith (s p : string) : bool :=
  match stripPrefix p s with Some _ => true | None => false end.

(** The class [\d]. *)
Definition isDigit (c : ascii) : bool :=
  (48 <=? charCode c) && (charCode c <=? 57).

(** The greedy [\d*] at the start of a string and what follows it. *)
Fixpoint digitsPrefix (s : string) : string :=
  match s with
  | String c rest => if isDigit c then String c (digitsPrefix rest) else EmptyString
  | EmptyString => EmptyString
  end.

(** The result of a successful match: the matched text and the capture. *)
Record RegExpMatch := { group0 : string; group1 : string }.

(** [/rate=(\d+)/] tried at the start of [s]. *)
Definition matchRateHere (s : string) : option RegExpMatch :=
  match stripPrefix "rate=" s with
  | Some rest =>
      match digitsPrefix rest with
      | EmptyString => None
      | ds => Some {| group0 := "rate=" ++ ds; group1 := ds |}
      end
  | None => None
  end.

(** [s.match(/rate=(\d+)/)]: the leftmost match, [None] for [null]. *)
Fixpoint matchRate (s : string) : option RegExpMatch :=
  match matchRateHere s with
  | Some m => Some m
  | None =>
      match s with
      | EmptyString => None
      | String _ rest => matchRate rest
      end
  end.

Definition digitValue (c : ascii) : Z := charCode c - 48.

(** The Number that [parseInt] returns for a run of digits: an integer,
    or +Infinity. *)
Inductive number := Finite (z : Z) | PosInfinity.

(** The Number of a natural number [n], as the conversion to a double
    gives it: [n] itself when it has at most 53 bits; with more bits, the
    nearest multiple of [2 ^ e], where [e] is the number of bits beyond 53,
    the even one of two multiples that are as near; +Infinity when that
    is 2^1024 or more. *)
Definition toDouble (n : Z) : number :=
  let e := Z.log2 n - 52 in
  if e <=? 0 then Finite n
  else
    let q := n / 2 ^ e in
    let r := n mod 2 ^ e in
    let half := 2 ^ (e - 1) in
    let k := if (half <? r) || ((r =? half) && Z.odd q) then q + 1 else q in
    if k * 2 ^ e <? 2 ^ 1024 then Finite (k * 2 ^ e) else PosInfinity.

(** The same conversion by the IEEE 754 operations of the standard
    library (binary64: precision 53, exponents below 1024), to compare
    [toDouble] with. *)
Definition toDoubleIEEE (n : Z) : number :=
  match SpecFloat.binary_normalize 53 1024 n 0 false with
  | SpecFloat.S754_zero _ => Finite 0
  | SpecFloat.S754_finite _ m e =>
      Finite (if 0 <=? e then Z.pos m * 2 ^ e else Z.pos m / 2 ^ (- e))
  | _ => PosInfinity
  end.

(** [parseInt(s, 10)] on a string that starts with a digit: the Number of
    the value of its leading digits. (A sign, leading blanks and the NaN of
    a string without leading digit are left out: the only call passes a
    capture of [\d+].) *)
Definition parseInt10 (s : string) : number :=
  toDouble (fold_left (fun acc c => 10 * acc + digitValue c)
                      (list_ascii_of_string (digitsPrefix s)) 0).

(** Lines 281-282 of [handleTtsClick]: the sample rate of a MIME type. *)
Definition sampleRateNumber (mimeType : string) : number :=
  let rateMatch := matchRate mimeType in
  match rateMatch with
  | Some m => parseInt10 (group1 m)
  | None => Finite 24000
  end.

(** The integer for which a Number stands in the encoder, which takes its
    rate as an integer here: the encoder uses the rate, and twice the rate,
    only under [ToUint32], and [ToUint32] sends +Infinity (as it does twice
    +Infinity) to 0, like the integer 0. *)
Definition integerOf (n : number) : Z :=
  match n with
  | Finite z => z
  | PosInfinity => 0
  end.

(** The sample rate as [handleTtsClick] passes it to the encoder. *)
Definition sampleRateOf (mimeType : string) : Z :=
  integerOf (sampleRateNumber mimeType).

Definition truthy (s : string) : bool :=
  match s with EmptyString => false | _ => true end.

Section Atob.

(** The [atob] of the platform: the decoded binary string, one character
    per byte, or an exception. *)
Variable atob : string -> exn + string.

Definition base64ToArrayBuffer (base64 : string) : M loc :=
  match atob base64 with
  | inl e => throw e
  | inr binaryString =>
      let len := Z.of_nat (String.length binaryString) in
      let* bytes := new_Uint8Array len in
      fillBytes bytes binaryString 0;;
      get_buffer bytes
  end.

(** The conversion of [handleTtsClick] (the guarded block of its [try]):
    [Some] of the blob handed to the player, [None] on the [else] branch;
    an exception is what the [catch] receives. *)
Definition handleTtsClick (audioData mimeType : string) : M (option Blob) :=
  if truthy audioData && truthy mimeType && startsWith mimeType "audio/L16"
  then
    let sampleRate := sampleRateOf mimeType in
    let* pcmData := base64ToArrayBuffer audioData in
    let* pcm16 := new_Int16Array pcmData in
    let* wavBlob := pcmToWav pcm16 sampleRate in
    ret (Some wavBlob)
  else ret None.

End Atob.

(** ** The [atob] of browsers

    Forgiving base64 decoding, as the HTML standard defines [atob]: blanks
    are dropped, padding is optional, and a character outside the alphabet
    or a length of 1 modulo 4 is an [InvalidCharacterError]. *)

Definition isBlank (c : ascii) : bool :=
  let n := charCode c in
  (n =? 9) || (n =? 10) || (n =? 12) || (n =? 13) || (n =? 32).

Definition sextet (c : ascii) : option Z :=
  let n := charCode c in
  if (65 <=? n) && (n <=? 90) then Some (n - 65)
  else if (97 <=? n) && (n <=? 122) then Some (n - 71)
  else if (48 <=? n) && (n <=? 57) then Some (n + 4)
  else if n =? 43 then Some 62
  else if n =? 47 then Some 63
  else None.

Fixpoint sextets (cs : list ascii) : option (list Z) :=
  match cs with
  | [] => Some []
  | c :: rest =>
      match sextet c, sextets rest with
      | Some x, Some xs => Some (x :: xs)
      | _, _ => None
      end
  end.

Fixpoint sextetBytes (xs : list Z) : list Z :=
  match xs with
  | a :: b :: c :: d :: rest =>
      let n := ((a * 64 + b) * 64 + c) * 64 + d in
      n / 65536 :: (n / 256) mod 256 :: n mod 256 :: sextetBytes rest
  | [a; b; c] =>
      let n := ((a * 64 + b) * 64 + c) / 4 in
      [n / 256; n mod 256]
  | [a; b] => [(a * 64 + b) / 16]
  | _ => []
  end.

Definition dropPadding (cs : list ascii) : list ascii :=
  if (Z.of_nat (length cs) mod 4 =? 0) then
    match rev cs with
    | "="%char :: "="%char :: front => rev front
    | "="%char :: front => rev front
    | _ => cs
    end
  else cs.

Definition byteChar (b : Z) : ascii := ascii_of_nat (Z.to_nat b).

Definition atob (data : string) : exn + string :=
  let cs := dropPadding (filter (fun c => negb (isBlank c))
                                (list_ascii_of_string data)) in
  if Z.of_nat (length cs) mod 4 =? 1 then inl InvalidCharacterError
  else match sextets cs with
       | Some xs => inr (string_of_list_ascii (map byteChar (sextetBytes xs)))
       | None => inl InvalidCharacterError
       end.

(** ** Reading an encoded container *)

(** RawBytesToNumeric, little-endian and unsigned. *)
Fixpoint fromRawBytes (bs : list Z) : Z :=
  match bs with
  | [] => 0
  | b :: rest => b + 256 * fromRawBytes rest
  end.

(** The bytes [off .. off+len-1] of a container. *)
Definition bytesAt (bytes : list Z) (off len : nat) : list Z :=
  take len (drop off bytes).

(** The readings of a field that starts at byte [off]: unsigned 32-bit,
    unsigned 16-bit and signed 16-bit, little-endian. *)
Definition uint32At (bytes : list Z) (off : nat) : Z :=
  fromRawBytes (bytesAt bytes off 4).
Definition uint16At (bytes : list Z) (off : nat) : Z :=
  fromRawBytes (bytesAt bytes off 2).
Definition int16At (bytes : list Z) (off : nat) : Z :=
  ToInt16 (fromRawBytes (bytesAt bytes off 2)).

(** The character codes of an ASCII marker. *)
Definition codes (s : string) : list Z :=
  map charCode (list_ascii_of_string s).

(** Modelled from the spec: the companion decoding operation (container
    bytes to samples and sample rate), which the repository does not have.
    It parses the 44-byte header for the sample rate (bytes 24-27, unsigned
    32-bit little-endian) and extracts the sample data that follows the
    header as little-endian signed 16-bit integers; a sequence shorter than
    a header, or with half a sample at its end, is no container. *)
Definition wavDecode (bytes : list Z) : option (list Z * Z) :=
  if (44 <=? length bytes)%nat && Nat.even (length bytes - 44)
  then Some (int16s (drop 44 bytes), uint32At bytes 24)
  else None.

(** The range of a signed 16-bit sample. *)
Definition isInt16 (v : Z) : Prop := -32768 <= v <= 32767.

(** ** The vocabulary of the sample-rate parameter *)

(** [rate=] followed by a digit occurs in [s] after the prefix [pre]. *)
Definition rateAt (pre s : string) : Prop :=
  exists d rest, isDigit d = true /\ s = (pre ++ "rate=" ++ String d rest)%string.

(** All the characters of [s] are digits. *)
Fixpoint allDigits (s : string) : bool :=
  match s with
  | EmptyString => true
  | String c rest => isDigit c && allDigits rest
  end.

(** The number that a string of decimal digits denotes. *)
Fixpoint decimalValue (s : string) : Z :=
  match s with
  | EmptyString => 0
  | String c rest => digitValue c * 10 ^ Z.of_nat (String.length rest)
                     + decimalValue rest
  end.

(** [s] does not start with a digit. *)
Definition noLeadingDigit (s : string) : Prop :=
  match s with
  | EmptyString => True
  | String c _ => isDigit c = false
  end.

(** ** Concrete stores *)

(** The samples of the scenario of the spec, held by a plain array. *)
Definition scenarioSamples : list Z := [0; 32767; -32768; 1000].
Definition scenarioHeap : heap := {[ 1%positive := NumberArray scenarioSamples ]}.

(** 2^31 samples of silence: the data of a container of 4 GiB. *)
Definition longSilence : list Z := repeat 0 (Z.to_nat 2147483648).
Definition longHeap : heap := {[ 1%positive := NumberArray longSilence ]}.

(** Numbers outside the signed 16-bit range, held by a plain array. *)
Definition wideSamples : list Z := [32768; -32769; 70000].
Definition wideHeap : heap := {[ 1%positive := NumberArray wideSamples ]}.

(** The same samples seen through an [Int16Array] over their bytes. *)
Definition viewHeap : heap :=
  {[ 1%positive := ArrayBuffer [0; 0; 255; 127; 0; 128; 232; 3];
     2%positive := Int16Array 1%positive ]}.

(** ** The bytes of an encoded container, in closed form *)

Definition sampleBytes (v : Z) : list Z := rawBytes 2 (ToInt16 v).

Definition wavHeader (n : Z) (sampleRate : Z) : list Z :=
  codes "RIFF" ++ rawBytes 4 (ToUint32 (36 + n * 2))
  ++ codes "WAVE" ++ codes "fmt "
  ++ rawBytes 4 (ToUint32 16) ++ rawBytes 2 (ToUint16 1) ++ rawBytes 2 (ToUint16 1)
  ++ rawBytes 4 (ToUint32 sampleRate) ++ rawBytes 4 (ToUint32 (sampleRate * 2))
  ++ rawBytes 2 (ToUint16 2) ++ rawBytes 2 (ToUint16 16)
  ++ codes "data" ++ rawBytes 4 (ToUint32 (n * 2)).

Definition wavBytes (samples : list Z) (sampleRate : Z) : list Z :=
  wavHeader (Z.of_nat (length samples)) sampleRate
  ++ flat_map sampleBytes samples.

(** ** Strings of the chat handlers

    The text of a message and of a nickname is modelled, like every string
    here, with 8-bit characters (Latin-1); [trim] and [toLowerCase] are those
    of ECMAScript on these characters. *)

Definition isByte (b : Z) : Prop := 0 <= b < 256.

(** WhiteSpace and LineTerminator: TAB, LF, VT, FF, CR, SP and NBSP. *)
Definition isWhiteSpace (c : ascii) : bool :=
  let n := charCode c in
  (n =? 9) || (n =? 10) || (n =? 11) || (n =? 12) || (n =? 13) || (n =? 32)
  || (n =? 160).

Fixpoint trimStart (s : string) : string :=
  match s with
  | EmptyString => EmptyString
  | String c rest => if isWhiteSpace c then trimStart rest else s
  end.

Fixpoint trimEnd (s : string) : string :=
  match s with
  | EmptyString => EmptyString
  | String c rest =>
      match trimEnd rest with
      | EmptyString => if isWhiteSpace c then EmptyString else String c EmptyString
      | kept => String c kept
      end
  end.

(** [s.trim()] *)
Definition trim (s : string) : string := trimEnd (trimStart s).

(** The lower case of a character: A-Z and the capital letters of Latin-1
    (all of 192-222 but the multiplication sign) move up by 32. *)
Definition lowerChar (c : ascii) : ascii :=
  let n := charCode c in
  if ((65 <=? n) && (n <=? 90))
     || ((192 <=? n) && (n <=? 214)) || ((216 <=? n) && (n <=? 222))
  then ascii_of_nat (nat_of_ascii c + 32)
  else c.

(** [s.toLowerCase()] *)
Fixpoint toLowerCase (s : string) : string :=
  match s with
  | EmptyString => EmptyString
  | String c rest => String (lowerChar c) (toLowerCase rest)
  end.

(** [s.substring(start)] *)
Fixpoint substringFrom (start : nat) (s : string) : string :=
  match start, s with
  | O, _ => s
  | S k, String _ rest => substringFrom k rest
  | S _, EmptyString => EmptyString
  end.

(** ** The state and the surroundings of the chat handlers *)

(** The values of the state variables that a handler sees (those of the
    render that created it). *)
Record AppState := {
  newMessage : string;
  userId : option string;
  nickname : option string;
  tempNickname : string;
  isAuthReady : bool;
  isAiProcessing : bool
}.

(** A document of the message collection; [createdAt: new Date()], the
    clock of the moment, is left out. *)
Record ChatDoc := {
  doc_text : string;
  doc_userId : option string;
  doc_userNickname : option string
}.

(** What a handler does to its surroundings, in order. *)
Inductive event :=
| PreventDefault
| SetNickname (v : string)
| SetNewMessage (v : string)
| SetIsAiProcessing (v : bool)
| AddDoc (path : string) (doc : ChatDoc)
| Fetch (url prompt systemPrompt : string)
| ConsoleLog (text : string)
| ConsoleError (text : string).

(** [__firebase_config]: undefined (or parsed to a falsy value); or
    [JSON.parse], [initializeApp] or [getFirestore] throws; or usable. *)
Inductive Config := ConfigMissing | ConfigBroken | ConfigReady.

(** The answer to the request of [getGeminiResponse]: [fetch] rejects; the
    response is not ok; [response.json()] rejects; or a result, with
    [result?.candidates?.[0]?.content?.parts?.[0]?.text] when it is a
    string. *)
Inductive Reply := FetchFails | NotOk | BadJson | Result (text : option string).

(** What the surroundings answer during one run of a handler. *)
Record Env := {
  config : Config;
  app_id : option string;
  addDoc_ok : ChatDoc -> bool;
  reply : Reply
}.

(** A run: the events so far, and the result unless an exception leaves. *)
Definition IO (A : Type) : Type := (list event * option A)%type.

Definition io_ret {A} (a : A) : IO A := ([], Some a).
Definition io_throw {A} : IO A := ([], None).
Definition emit (e : event) : IO unit := ([e], Some tt).
Definition io_bind {A B} (m : IO A) (k : A -> IO B) : IO B :=
  match m with
  | (t, None) => (t, None)
  | (t, Some a) => let (t', r) := k a in (t ++ t', r)
  end.

(** [try { m } catch (error) { handler }] *)
Definition try_catch {A} (m : IO A) (handler : IO A) : IO A :=
  match m with
  | (t, None) => let (t', r) := handler in (t ++ t', r)
  | (t, Some a) => (t, Some a)
  end.

(** [try { m } finally { final }] *)
Definition try_finally {A} (m : IO A) (final : IO unit) : IO A :=
  let (t, r) := m in
  let (t', r') := final in
  (t ++ t', match r' with Some _ => r | None => None end).

Declare Scope io_scope.
Delimit Scope io_scope with io.
Notation "'let*' x ':=' m 'in' k" := (io_bind m (fun x => k))
  (at level 10, x name, m at level 100, k at level 200) : io_scope.
Notation "m ';;' k" := (io_bind m (fun _ => k))
  (at level 100, k at level 200, right associativity) : io_scope.

(** ** The chat handlers *)

Local Open Scope string_scope.
Local Open Scope io_scope.

(** [value || fallback] and [!value] on a string or [null]. *)
Definition truthyOpt (v : option string) : bool :=
  match v with Some s => truthy s | None => false end.

Definition handleSetNickname (st : AppState) : IO unit :=
  let trimmedName := trim (tempNickname st) in
  if (2 <=? String.length trimmedName)%nat
  then emit (SetNickname trimmedName)
  else emit (ConsoleLog "Nickname must be at least 2 characters.").

(** The [disabled] of the Join button and of the Send button. *)
Definition joinDisabled (st : AppState) : bool :=
  negb (isAuthReady st) || (String.length (trim (tempNickname st)) <? 2)%nat.

Definition sendDisabled (st : AppState) : bool :=
  negb (isAuthReady st) || negb (truthyOpt (nickname st))
  || String.eqb (trim (newMessage st)) "" || isAiProcessing st.

Definition messagesPath (env : Env) : string :=
  let appId := match app_id env with Some a => a | None => "default-app-id" end in
  ("artifacts/" ++ appId ++ "/public/data/messages")%string.

(** [await addDoc(collection(db, path), doc)] *)
Definition addDoc (env : Env) (path : string) (doc : ChatDoc) : IO unit :=
  emit (AddDoc path doc);;
  if addDoc_ok env doc then io_ret tt else io_throw.

(** [senderId === userId] on strings or [null]. *)
Definition sameId (a b : option string) : bool :=
  match a, b with
  | Some x, Some y => String.eqb x y
  | None, None => true
  | _, _ => false
  end.

Definition postMessageToChat (env : Env) (st : AppState) (text : string)
    (senderId : option string) : IO unit :=
  match config env with
  | ConfigMissing => io_ret tt
  | ConfigBroken => io_throw
  | ConfigReady =>
      try_catch
        (addDoc env (messagesPath env)
           {| doc_text := text;
              doc_userId := senderId;
              doc_userNickname :=
                if sameId senderId (userId st) then nickname st
                else Some "Gemini (AI Assistant)" |})
        (emit (ConsoleError "Error adding message:"))
  end.

Definition systemPrompt : string :=
  "You are a friendly, helpful, and concise AI assistant named Gemini. Answer the user's questions accurately and conversationally.".

Definition apiUrl : string :=
  "https://generativelanguage.googleapis.com/v1beta/models/gemini-2.5-flash-preview-05-20:generateContent?key=".

(** The request of [getGeminiResponse] up to [botResponse]. *)
Definition fetchBotResponse (env : Env) (prompt : string) : IO string :=
  emit (Fetch apiUrl prompt systemPrompt);;
  match reply env with
  | FetchFails | NotOk | BadJson => io_throw
  | Result text =>
      io_ret (if truthyOpt text
              then match text with Some s => s | None => EmptyString end
              else "Sorry, I couldn't generate a response at this time.")
  end.

Definition getGeminiResponse (env : Env) (st : AppState) (prompt : string)
  : IO unit :=
  emit (SetIsAiProcessing true);;
  try_finally
    (try_catch
       (let* botResponse := fetchBotResponse env prompt in
        postMessageToChat env st botResponse (Some "Gemini"%string))
       (emit (ConsoleError "Error getting Gemini response:");;
        postMessageToChat env st "Error contacting AI service."
          (Some "Gemini"%string)))
    (emit (SetIsAiProcessing false)).

(** The prompt of a message: the message without a leading [@gemini ],
    in any case of letters. *)
Definition userPromptOf (trimmedMessage : string) : string :=
  if startsWith (toLowerCase trimmedMessage) "@gemini "
  then substringFrom 8 trimmedMessage
  else trimmedMessage.

Definition handleSendMessage (env : Env) (st : AppState) : IO unit :=
  emit PreventDefault;;
  let trimmedMessage := trim (newMessage st) in
  if negb (truthy trimmedMessage) || negb (truthyOpt (userId st))
     || negb (truthyOpt (nickname st)) || isAiProcessing st
  then io_ret tt
  else
    postMessageToChat env st trimmedMessage (userId st);;
    emit (SetNewMessage "");;
    let userPrompt := userPromptOf trimmedMessage in
    getGeminiResponse env st userPrompt.

Local Close Scope io_scope.
Local Close Scope string_scope.

(** ** The vocabulary of the chat properties *)

Fixpoint allWhiteSpace (s : string) : bool :=
  match s with
  | EmptyString => true
  | String c rest => isWhiteSpace c && allWhiteSpace rest
  end.

Definition firstChar (s : string) : option ascii :=
  match s with
  | EmptyString => None
  | String c _ => Some c
  end.

Fixpoint lastChar (s : string) : option ascii :=
  match s with
  | EmptyString => None
  | String c EmptyString => Some c
  | String _ rest => lastChar rest
  end.

(** Neither the first nor the last character of [s] is white space. *)
Definition bare (s : string) : Prop :=
  (forall c, firstChar s = Some c -> isWhiteSpace c = false) /\
  (forall c, lastChar s = Some c -> isWhiteSpace c = false).

(** The documents that a run tries to add, the requests that it sends and
    the values that it gives to [isAiProcessing], in order. *)
Definition docsOf (t : list event) : list ChatDoc :=
  flat_map (fun e => match e with AddDoc _ d => [d] | _ => [] end) t.

Definition promptsOf (t : list event) : list string :=
  flat_map (fun e => match e with Fetch _ p _ => [p] | _ => [] end) t.

Definition busyOf (t : list event) : list bool :=
  flat_map (fun e => match e with SetIsAiProcessing b => [b] | _ => [] end) t.

(** ** The snapshot listener *)

(** The values of the fields of a document: a Firestore Timestamp is
    given with the date that its [toDate] returns; [JObject] is any other
    object (a map, an array, a reference). *)
Inductive jsvalue :=
| JUndefined
| JNull
| JBoolean (b : bool)
| JNumber (z : Z)
| JString (s : string)
| JTimestamp (date : Z)
| JDate (date : Z)
| JObject.

Abbreviation jsobject := (gmap string jsvalue).

(** A document of a snapshot: [doc.id] and [doc.data()]. *)
Record QueryDoc := { qd_id : string; qd_data : jsobject }.

(** [data.createdAt?.toDate()] *)
Definition createdAtDate (data : jsobject) : exn + jsvalue :=
  match data !! "createdAt"%string with
  | None | Some JUndefined | Some JNull => inr JUndefined
  | Some (JTimestamp d) => inr (JDate d)
  | Some _ => inl TypeError
  end.

(** [{ id: doc.id, ...data, createdAt: data.createdAt?.toDate() }] *)
Definition toMessage (doc : QueryDoc) : exn + jsobject :=
  match createdAtDate (qd_data doc) with
  | inl e => inl e
  | inr d =>
      inr (<["createdAt"%string := d]>
             (qd_data doc ∪ {["id"%string := JString (qd_id doc)]}))
  end.

(** The callback of [onSnapshot]: the list handed to [setMessages], or the
    exception that leaves the callback. *)
Fixpoint fetchedMessages (docs : list QueryDoc) : exn + list jsobject :=
  match docs with
  | [] => inr []
  | doc :: rest =>
      match toMessage doc with
      | inl e => inl e
      | inr m =>
          match fetchedMessages rest with
          | inl e => inl e
          | inr ms => inr (m :: ms)
          end
      end
  end.

(** * Running the model *)

Lemma bind_run {A B} (m : M A) (k : A -> M B) h a h' :
  m h = inr (a, h') -> bind m k h = k a h'.
Proof. intros E. unfold bind. now rewrite E. Qed.

Lemma bind_throw {A B} (m : M A) (k : A -> M B) h e :
  m h = inl e -> bind m k h = inl e.
Proof. intros E. unfold bind. now rewrite E. Qed.

Lemma rawBytes_length n v : length (rawBytes n v) = n.
Proof. revert v. induction n as [|n IH]; intros v; simpl; [|rewrite IH]; reflexivity. Qed.

(** A store in which the object at [b] does not exist yet keeps the
    elements of every array when [b] is allocated or rewritten. *)
Lemma elements_insert_fresh (h : heap) b o a es :
  h !! b = None -> elements h a = Some es ->
  elements (<[b := o]> h) a = Some es.
Proof.
  intros Hb. unfold elements.
  destruct (h !! a) as [oa|] eqn:Ha; [|discriminate].
  assert (b <> a) as Hne by congruence.
  rewrite lookup_insert_ne, Ha by exact Hne.
  destruct oa as [bytes|b'|b'|elems]; try discriminate; try tauto.
  all: destruct (h !! b') as [ob|] eqn:Hb'; [|discriminate].
  all: assert (b <> b') as Hne' by congruence.
  all: rewrite lookup_insert_ne, Hb' by exact Hne'; tauto.
Qed.

Lemma get_length_run (h : heap) a es :
  elements h a = Some es -> get_length a h = inr (Z.of_nat (length es), h).
Proof. intros E. unfold get_length. now rewrite E. Qed.

Lemma get_index_run (h : heap) a es i :
  elements h a = Some es ->
  get_index a i h = inr (from_option Num Undefined (es !! i), h).
Proof. intros E. unfold get_index. now rewrite E. Qed.

Lemma splice_next (pre bs : list Z) n :
  splice (length pre) bs (pre ++ repeat 0 (length bs + n))
  = (pre ++ bs) ++ repeat 0 n.
Proof.
  unfold splice.
  rewrite take_app_length, drop_app_add', repeat_app by reflexivity.
  rewrite drop_app_length' by now rewrite repeat_length.
  now rewrite <- app_assoc.
Qed.

(** Writing the next bytes of a buffer that is filled from left to right. *)
Lemma setBytes_next (h : heap) b off bs pre n :
  off = Z.of_nat (length pre) ->
  setBytes (new_DataView b) off bs
           (<[b := ArrayBuffer (pre ++ repeat 0 (length bs + n))]> h)
  = inr (tt, <[b := ArrayBuffer ((pre ++ bs) ++ repeat 0 n)]> h).
Proof.
  intros ->. unfold setBytes. simpl dv_buffer.
  rewrite lookup_insert_eq.
  rewrite length_app, repeat_length.
  destruct (0 <=? Z.of_nat (length pre)) eqn:E1; [|apply Z.leb_gt in E1; lia].
  destruct (Z.of_nat (length pre) + Z.of_nat (length bs)
            <=? Z.of_nat (length pre + (length bs + n))) eqn:E2;
    [|apply Z.leb_gt in E2; lia].
  simpl andb. cbv iota.
  rewrite Nat2Z.id, splice_next, insert_insert_eq. reflexivity.
Qed.

Lemma charCode_range c : 0 <= charCode c < 256.
Proof.
  unfold charCode. split; [apply Nat2Z.is_nonneg|].
  exact (proj1 (Nat2Z.inj_lt _ _) (nat_ascii_bounded c)).
Qed.

Lemma ToUint8_charCode c : ToUint8 (charCode c) = charCode c.
Proof. unfold ToUint8. apply Z.mod_small, charCode_range. Qed.

Lemma writeString_from_next (h : heap) b offset s i pre n :
  offset + i = Z.of_nat (length pre) ->
  writeString_from (new_DataView b) offset s i
    (<[b := ArrayBuffer (pre ++ repeat 0 (String.length s + n))]> h)
  = inr (tt, <[b := ArrayBuffer ((pre ++ codes s) ++ repeat 0 n)]> h).
Proof.
  revert i pre. induction s as [|c s IH]; intros i pre Hoff.
  - simpl. unfold ret, codes. simpl. now rewrite app_nil_r.
  - cbn [writeString_from String.length].
    erewrite bind_run.
    2:{ unfold setUint8.
        apply (setBytes_next h b (offset + i) (rawBytes 1 (ToUint8 (charCode c)))
                 pre (String.length s + n)). exact Hoff. }
    rewrite IH.
    2:{ rewrite length_app. simpl length. lia. }
    unfold codes. simpl.
    rewrite ToUint8_charCode, (Z.mod_small _ 256) by apply charCode_range.
    now rewrite <- !app_assoc.
Qed.

Lemma writeString_next (h : heap) b offset s pre n :
  offset = Z.of_nat (length pre) ->
  writeString (new_DataView b) offset s
    (<[b := ArrayBuffer (pre ++ repeat 0 (String.length s + n))]> h)
  = inr (tt, <[b := ArrayBuffer ((pre ++ codes s) ++ repeat 0 n)]> h).
Proof. intros H. apply writeString_from_next. lia. Qed.

Lemma writeSamples_next (h : heap) b p rest : forall done pre offset,
  h !! b = None ->
  elements h p = Some (done ++ rest) ->
  offset = Z.of_nat (length pre) ->
  writeSamples (new_DataView b) p (seq (length done) (length rest)) offset
    (<[b := ArrayBuffer (pre ++ repeat 0 (2 * length rest))]> h)
  = inr (offset + 2 * Z.of_nat (length rest),
         <[b := ArrayBuffer (pre ++ flat_map sampleBytes rest)]> h).
Proof.
  induction rest as [|v rest IH]; intros done pre offset Hb Hp Hoff.
  - simpl. unfold ret. do 2 f_equal. lia.
  - cbn [length seq writeSamples].
    erewrite bind_run.
    2:{ apply get_index_run. eapply elements_insert_fresh; eassumption. }
    rewrite list_lookup_middle by reflexivity. cbn [from_option integral].
    replace (2 * S (length rest))%nat
      with (length (rawBytes 2 (ToInt16 v)) + 2 * length rest)%nat
      by (rewrite rawBytes_length; lia).
    erewrite bind_run.
    2:{ unfold setInt16, ordered. apply setBytes_next. exact Hoff. }
    replace (S (length done)) with (length (done ++ [v]))
      by (rewrite length_app; simpl; lia).
    rewrite (IH (done ++ [v]) (pre ++ rawBytes 2 (ToInt16 v)) (offset + 2)).
    + cbn [flat_map]. unfold sampleBytes at 2.
      rewrite <- app_assoc. do 2 f_equal. lia.
    + exact Hb.
    + now rewrite <- app_assoc.
    + rewrite length_app, rawBytes_length. lia.
Qed.

Lemma fresh_loc_None (h : heap) : h !! fresh (dom h) = None.
Proof. apply not_elem_of_dom, is_fresh. Qed.

(** The encoder returns, whatever the samples and the sample rate are: the
    blob holds the bytes of [wavBytes], and the store gains the output
    buffer at a fresh location and is otherwise as before. *)
Lemma pcmToWav_run (h : heap) pcmData samples sampleRate :
  elements h pcmData = Some samples ->
  pcmToWav pcmData sampleRate h
  = inr ({| blob_bytes := wavBytes samples sampleRate;
            blob_type := "audio/wav" |},
         <[fresh (dom h) := ArrayBuffer (wavBytes samples sampleRate)]> h).
Proof.
  intros Hp. unfold pcmToWav.
  pose proof (fresh_loc_None h) as Hb.
  set (n := length samples).
  assert (forall o, get_length pcmData (<[fresh (dom h) := o]> h)
                    = inr (Z.of_nat n, <[fresh (dom h) := o]> h)) as Hlen.
  { intros o. apply get_length_run. now apply elements_insert_fresh. }
  erewrite bind_run by (apply get_length_run; exact Hp). fold n.
  erewrite bind_run.
  2:{ unfold new_ArrayBuffer.
      destruct (44 + Z.of_nat n * 2 <? 0) eqn:E; [apply Z.ltb_lt in E; lia|].
      reflexivity. }
  replace (repeat 0 (Z.to_nat (44 + Z.of_nat n * 2)))
    with ([] ++ repeat 0 (4 + (4 + (4 + (4 + (4 + (2 + (2 + (4 + (4 + (2 +
            (2 + (4 + (4 + (2 * n + 0))))))))))))))%nat)
    by (rewrite app_nil_l; f_equal; lia).
  cbv zeta.
  erewrite bind_run by (apply writeString_next; reflexivity).
  rewrite (bind_run _ _ _ _ _ (Hlen _)).
  erewrite bind_run by (unfold setUint32, ordered; apply setBytes_next; reflexivity).
  erewrite bind_run by (apply writeString_next; reflexivity).
  erewrite bind_run by (apply writeString_next; reflexivity).
  erewrite bind_run by (unfold setUint32, ordered; apply setBytes_next; reflexivity).
  erewrite bind_run by (unfold setUint16, ordered; apply setBytes_next; reflexivity).
  erewrite bind_run by (unfold setUint16, ordered; apply setBytes_next; reflexivity).
  erewrite bind_run by (unfold setUint32, ordered; apply setBytes_next; reflexivity).
  erewrite bind_run by (unfold setUint32, ordered; apply setBytes_next; reflexivity).
  erewrite bind_run by (unfold setUint16, ordered; apply setBytes_next; reflexivity).
  erewrite bind_run by (unfold setUint16, ordered; apply setBytes_next; reflexivity).
  erewrite bind_run by (apply writeString_next; reflexivity).
  rewrite (bind_run _ _ _ _ _ (Hlen _)).
  erewrite bind_run by (unfold setUint32, ordered; apply setBytes_next; reflexivity).
  rewrite (bind_run _ _ _ _ _ (Hlen _)).
  rewrite Nat2Z.id.
  erewrite bind_run.
  2:{ rewrite Nat.add_0_r.
      apply (writeSamples_next h (fresh (dom h)) pcmData samples []);
        [exact Hb | exact Hp | reflexivity]. }
  unfold new_Blob. rewrite lookup_insert_eq.
  assert (sampleRate * 1 * (16 / 8) = sampleRate * 2) as -> by (change (16 / 8) with 2; lia).
  change (1 * (16 / 8)) with 2.
  unfold wavBytes, wavHeader. fold n.
  rewrite <- !app_assoc. reflexivity.
Qed.

(** * Reading the closed form *)

Ltac literals :=
  change (2 ^ 8) with 256 in *; change (2 ^ 15) with 32768 in *;
  change (2 ^ 16) with 65536 in *; change (2 ^ 32) with 4294967296 in *.

Lemma fromRawBytes_rawBytes n v :
  fromRawBytes (rawBytes n v) = v mod 256 ^ Z.of_nat n.
Proof.
  revert v. induction n as [|n IH]; intros v.
  - simpl. now rewrite Z.mod_1_r.
  - cbn [rawBytes fromRawBytes]. rewrite IH, Nat2Z.inj_succ, Z.pow_succ_r by lia.
    symmetry. apply Z.rem_mul_r; [lia|]. apply Z.pow_pos_nonneg; lia.
Qed.

Lemma uint32_rawBytes v : fromRawBytes (rawBytes 4 (ToUint32 v)) = v mod 2 ^ 32.
Proof.
  rewrite fromRawBytes_rawBytes. unfold ToUint32.
  change (256 ^ Z.of_nat 4) with (2 ^ 32). literals. apply Z.mod_mod. lia.
Qed.

Lemma uint16_rawBytes v : fromRawBytes (rawBytes 2 v) = v mod 2 ^ 16.
Proof. now rewrite fromRawBytes_rawBytes. Qed.

Lemma ToInt16_mod v : ToInt16 (v mod 2 ^ 16) = ToInt16 v.
Proof. unfold ToInt16. cbv zeta. literals. rewrite Z.mod_mod by lia. reflexivity. Qed.

Lemma ToInt16_idem v : ToInt16 (ToInt16 v) = ToInt16 v.
Proof.
  rewrite <- (ToInt16_mod (ToInt16 v)). rewrite <- (ToInt16_mod v) at 2.
  f_equal. unfold ToInt16. cbv zeta. literals.
  destruct (32768 <=? v mod 65536); [|now rewrite Z.mod_mod by lia].
  rewrite <- (Z.mod_mod v 65536) at 2 by lia.
  rewrite <- (Z_mod_plus_full (v mod 65536 - 65536) 1 65536).
  f_equal. lia.
Qed.

Lemma ToInt16_small v : isInt16 v -> ToInt16 v = v.
Proof.
  unfold isInt16, ToInt16. intros Hv. cbv zeta. literals.
  destruct (Z_lt_le_dec v 0) as [Hneg|Hpos].
  - assert (v mod 65536 = v + 65536) as ->
      by (symmetry; apply (Z.mod_unique_pos _ _ (-1)); lia).
    destruct (32768 <=? v + 65536) eqn:E; [lia|apply Z.leb_gt in E; lia].
  - rewrite Z.mod_small by lia.
    destruct (32768 <=? v) eqn:E; [apply Z.leb_le in E; lia|reflexivity].
Qed.

(** The signed reading of the two bytes written for a sample. *)
Lemma int16_sampleBytes v : ToInt16 (fromRawBytes (sampleBytes v)) = ToInt16 v.
Proof.
  unfold sampleBytes. rewrite uint16_rawBytes, ToInt16_mod. apply ToInt16_idem.
Qed.

Lemma wavHeader_length n sampleRate : length (wavHeader n sampleRate) = 44%nat.
Proof. reflexivity. Qed.

Lemma sampleData_length samples :
  length (flat_map sampleBytes samples) = (2 * length samples)%nat.
Proof.
  induction samples as [|v samples IH]; [reflexivity|].
  cbn [flat_map]. rewrite length_app, IH. unfold sampleBytes.
  rewrite rawBytes_length. simpl length. lia.
Qed.

Lemma wavBytes_length samples sampleRate :
  length (wavBytes samples sampleRate) = (44 + 2 * length samples)%nat.
Proof.
  unfold wavBytes. now rewrite length_app, wavHeader_length, sampleData_length.
Qed.

(** A field of the header is read in the header alone. *)
Lemma bytesAt_header samples sampleRate off len :
  (off + len <= 44)%nat ->
  bytesAt (wavBytes samples sampleRate) off len
  = bytesAt (wavHeader (Z.of_nat (length samples)) sampleRate) off len.
Proof.
  intros Hle. unfold bytesAt, wavBytes.
  rewrite drop_app_le by (rewrite wavHeader_length; lia).
  apply take_app_le. rewrite length_drop, wavHeader_length. lia.
Qed.

Lemma sampleData_drop samples i :
  drop (2 * i) (flat_map sampleBytes samples)
  = flat_map sampleBytes (drop i samples).
Proof.
  revert i. induction samples as [|v samples IH]; intros i.
  - cbn [flat_map]. now rewrite !drop_nil.
  - destruct i as [|i]; [reflexivity|].
    replace (2 * S i)%nat with (S (S (2 * i))) by lia.
    cbn [flat_map drop]. unfold sampleBytes at 1. simpl rawBytes. simpl app.
    cbn [drop]. apply IH.
Qed.

(** The two bytes of the [i]-th sample follow the header at [44 + 2 i]. *)
Lemma bytesAt_sample samples sampleRate i v :
  samples !! i = Some v ->
  bytesAt (wavBytes samples sampleRate) (44 + 2 * i) 2 = sampleBytes v.
Proof.
  intros Hi. unfold bytesAt, wavBytes.
  rewrite drop_app_add' by (symmetry; apply wavHeader_length).
  rewrite sampleData_drop.
  apply list_elem_of_split_length in Hi as (l1 & l2 & -> & ->).
  rewrite drop_app_length. cbn [flat_map]. reflexivity.
Qed.

Lemma int16s_sampleData samples :
  int16s (flat_map sampleBytes samples) = map ToInt16 samples.
Proof.
  induction samples as [|v samples IH]; [reflexivity|].
  cbn [flat_map map]. rewrite <- IH, <- (int16_sampleBytes v).
  unfold sampleBytes. simpl rawBytes. simpl app. cbn [int16s fromRawBytes].
  do 2 f_equal. lia.
Qed.

Lemma map_ToInt16_small samples :
  Forall isInt16 samples -> map ToInt16 samples = samples.
Proof.
  induction 1 as [|v samples Hv _ IH]; [reflexivity|].
  cbn [map]. now rewrite IH, ToInt16_small.
Qed.

(** Decoding a container, in closed form. *)
Lemma wavDecode_wavBytes samples sampleRate :
  wavDecode (wavBytes samples sampleRate)
  = Some (map ToInt16 samples, sampleRate mod 2 ^ 32).
Proof.
  unfold wavDecode. rewrite wavBytes_length.
  replace (44 <=? 44 + 2 * length samples)%nat with true
    by (symmetry; apply Nat.leb_le; lia).
  replace (44 + 2 * length samples - 44)%nat with (2 * length samples)%nat by lia.
  rewrite Nat.even_mul. cbn [Nat.even orb andb].
  unfold uint32At. rewrite bytesAt_header by lia.
  change (bytesAt (wavHeader (Z.of_nat (length samples)) sampleRate) 24 4)
    with (rawBytes 4 (ToUint32 sampleRate)).
  rewrite uint32_rawBytes.
  unfold wavBytes. rewrite drop_app_length' by (symmetry; apply wavHeader_length).
  now rewrite int16s_sampleData.
Qed.

(** * The encoder *)

(** C2. For every sample sequence of length [n] and every sample rate, the
    encoder returns a blob of exactly [44 + 2 n] bytes. *)
Theorem pcmToWav_length (h : heap) pcmData samples sampleRate :
  elements h pcmData = Some samples ->
  exists blob h',
    pcmToWav pcmData sampleRate h = inr (blob, h') /\
    Z.of_nat (length (blob_bytes blob)) = 44 + 2 * Z.of_nat (length samples).
Proof.
  intros Hp. eexists _, _. split; [apply pcmToWav_run; exact Hp|].
  cbn [blob_bytes]. rewrite wavBytes_length. lia.
Qed.

Lemma pcmToWav_length_witness :
  elements scenarioHeap 1%positive = Some scenarioSamples /\
  exists blob h',
    pcmToWav 1%positive 24000 scenarioHeap = inr (blob, h') /\
    Z.of_nat (length (blob_bytes blob)) = 44 + 2 * Z.of_nat (length scenarioSamples).
Proof.
  split; [reflexivity|].
  apply (pcmToWav_length scenarioHeap 1%positive scenarioSamples 24000).
  reflexivity.
Defined.

Lemma header_size_fields n sampleRate :
  uint32At (wavHeader n sampleRate) 40 = (n * 2) mod 2 ^ 32 /\
  uint32At (wavHeader n sampleRate) 4 = (36 + n * 2) mod 2 ^ 32.
Proof. split; apply uint32_rawBytes. Qed.

Lemma wavBytes_size_fields samples sampleRate :
  let n := Z.of_nat (length samples) in
  uint32At (wavBytes samples sampleRate) 40 = (2 * n) mod 2 ^ 32 /\
  uint32At (wavBytes samples sampleRate) 4 = (36 + 2 * n) mod 2 ^ 32.
Proof.
  cbv zeta. unfold uint32At. rewrite !bytesAt_header by lia.
  destruct (header_size_fields (Z.of_nat (length samples)) sampleRate)
    as [H40 H4].
  unfold uint32At in H40, H4. rewrite H40, H4.
  split; f_equal; lia.
Qed.

(** C3, as the claim states it, fails: with 2^31 samples the data length
    2^32 does not fit its field, which reads 0. *)
Lemma pcmToWav_size_fields_counterexample :
  exists blob h',
    pcmToWav 1%positive 24000 longHeap = inr (blob, h') /\
    uint32At (blob_bytes blob) 40 <> 2 * Z.of_nat (length longSilence).
Proof.
  eexists _, _. split.
  - apply pcmToWav_run. unfold elements, longHeap.
    rewrite lookup_singleton_eq. reflexivity.
  - cbn [blob_bytes].
    rewrite (proj1 (wavBytes_size_fields longSilence 24000)).
    unfold longSilence. rewrite repeat_length, Z2Nat.id by discriminate.
    discriminate.
Qed.

(** C3, amended. The data-length field (bytes 40-43) and the total-size
    field (bytes 4-7) hold [2 n] and [36 + 2 n] reduced modulo 2^32; for
    every sample sequence with [36 + 2 n < 2^32] they are equal to [2 n]
    and to [36 + 2 n], which is the output length minus 8. *)
Theorem pcmToWav_size_fields (h : heap) pcmData samples sampleRate :
  elements h pcmData = Some samples ->
  exists blob h',
    pcmToWav pcmData sampleRate h = inr (blob, h') /\
    let n := Z.of_nat (length samples) in
    uint32At (blob_bytes blob) 40 = (2 * n) mod 2 ^ 32 /\
    uint32At (blob_bytes blob) 4 = (36 + 2 * n) mod 2 ^ 32 /\
    (36 + 2 * n < 2 ^ 32 ->
     uint32At (blob_bytes blob) 40 = 2 * n /\
     uint32At (blob_bytes blob) 4 = 36 + 2 * n /\
     uint32At (blob_bytes blob) 4 = Z.of_nat (length (blob_bytes blob)) - 8).
Proof.
  intros Hp. eexists _, _. split; [apply pcmToWav_run; exact Hp|].
  cbn [blob_bytes]. cbv zeta.
  destruct (wavBytes_size_fields samples sampleRate) as [H40 H4].
  cbv zeta in H40, H4. rewrite H40, H4, wavBytes_length.
  literals. repeat split; rewrite Z.mod_small; lia.
Qed.

Lemma pcmToWav_size_fields_witness :
  elements scenarioHeap 1%positive = Some scenarioSamples /\
  exists blob h',
    pcmToWav 1%positive 24000 scenarioHeap = inr (blob, h') /\
    uint32At (blob_bytes blob) 40 = 8 /\
    uint32At (blob_bytes blob) 4 = 44 /\
    uint32At (blob_bytes blob) 4 = Z.of_nat (length (blob_bytes blob)) - 8.
Proof.
  split; [reflexivity|].
  destruct (pcmToWav_size_fields scenarioHeap 1%positive scenarioSamples 24000
              eq_refl) as (blob & h' & Hrun & _ & _ & Hexact).
  exists blob, h'. split; [exact Hrun|].
  apply Hexact. reflexivity.
Defined.

Lemma header_constant_fields n sampleRate :
  let hd := wavHeader n sampleRate in
  bytesAt hd 0 4 = codes "RIFF" /\
  bytesAt hd 8 4 = codes "WAVE" /\
  bytesAt hd 12 4 = codes "fmt " /\
  uint32At hd 16 = 16 /\
  uint16At hd 20 = 1 /\
  uint16At hd 22 = 1 /\
  uint16At hd 32 = 2 /\
  uint16At hd 34 = 16 /\
  bytesAt hd 36 4 = codes "data".
Proof. cbv zeta. repeat split; reflexivity. Qed.

Lemma header_rate_fields n sampleRate :
  uint32At (wavHeader n sampleRate) 24 = sampleRate mod 2 ^ 32 /\
  uint32At (wavHeader n sampleRate) 28 = (sampleRate * 2) mod 2 ^ 32.
Proof. split; apply uint32_rawBytes. Qed.

Lemma wavBytes_rate_fields samples sampleRate :
  uint32At (wavBytes samples sampleRate) 24 = sampleRate mod 2 ^ 32 /\
  uint32At (wavBytes samples sampleRate) 28 = (sampleRate * 2) mod 2 ^ 32.
Proof.
  unfold uint32At. rewrite !bytesAt_header by lia.
  apply header_rate_fields.
Qed.

(** C4, as the claim states it, fails: a sample rate of 2^32 does not fit
    the sample-rate field, which reads 0, and with a sample rate of 2^31
    the byte rate 2^32 does not fit its field, which reads 0. *)
Lemma pcmToWav_header_counterexample :
  (exists blob h',
      pcmToWav 1%positive 4294967296 scenarioHeap = inr (blob, h') /\
      uint32At (blob_bytes blob) 24 <> 4294967296) /\
  (exists blob h',
      pcmToWav 1%positive 2147483648 scenarioHeap = inr (blob, h') /\
      uint32At (blob_bytes blob) 28 <> 2147483648 * 2).
Proof.
  split; eexists _, _; (split; [vm_compute; reflexivity|]);
    vm_compute; discriminate.
Qed.

(** C4, amended. The first 44 bytes of the output are: 'RIFF' at 0-3;
    'WAVE' at 8-11; 'fmt ' at 12-15; 16 at 16-19; 1 at 20-21; the channel
    count 1 at 22-23; the sample rate reduced modulo 2^32 at 24-27, which is
    the sample rate when it lies in [0, 2^32); twice the sample rate reduced
    modulo 2^32 at 28-31, which is twice the sample rate when the rate lies
    in [0, 2^31); 2 at 32-33; 16 at 34-35; 'data' at 36-39. *)
Theorem pcmToWav_header (h : heap) pcmData samples sampleRate :
  elements h pcmData = Some samples ->
  exists blob h',
    pcmToWav pcmData sampleRate h = inr (blob, h') /\
    let out := blob_bytes blob in
    bytesAt out 0 4 = codes "RIFF" /\
    bytesAt out 8 4 = codes "WAVE" /\
    bytesAt out 12 4 = codes "fmt " /\
    uint32At out 16 = 16 /\
    uint16At out 20 = 1 /\
    uint16At out 22 = 1 /\
    uint32At out 24 = sampleRate mod 2 ^ 32 /\
    (0 <= sampleRate < 2 ^ 32 -> uint32At out 24 = sampleRate) /\
    uint32At out 28 = (sampleRate * 2) mod 2 ^ 32 /\
    (0 <= sampleRate < 2 ^ 31 -> uint32At out 28 = sampleRate * 2) /\
    uint16At out 32 = 2 /\
    uint16At out 34 = 16 /\
    bytesAt out 36 4 = codes "data".
Proof.
  intros Hp. eexists _, _. split; [apply pcmToWav_run; exact Hp|].
  cbn [blob_bytes]. cbv zeta.
  destruct (wavBytes_rate_fields samples sampleRate) as [H24 H28].
  destruct (header_constant_fields (Z.of_nat (length samples)) sampleRate)
    as (H0 & H8 & H12 & H16 & H20 & H22 & H32 & H34 & H36).
  cbv zeta in H0, H8, H12, H16, H20, H22, H32, H34, H36.
  unfold uint32At, uint16At in *. rewrite !bytesAt_header by lia.
  repeat split; try assumption.
  - intros Hr. rewrite bytesAt_header in H24 by lia.
    rewrite H24. apply Z.mod_small. exact Hr.
  - intros Hr. rewrite bytesAt_header in H28 by lia.
    rewrite H28. apply Z.mod_small.
    change (2 ^ 31) with 2147483648 in Hr. literals. lia.
Qed.

Lemma pcmToWav_header_witness :
  elements scenarioHeap 1%positive = Some scenarioSamples /\
  exists blob h',
    pcmToWav 1%positive 24000 scenarioHeap = inr (blob, h') /\
    bytesAt (blob_bytes blob) 0 4 = [82; 73; 70; 70] /\
    uint32At (blob_bytes blob) 24 = 24000 /\
    uint32At (blob_bytes blob) 28 = 48000.
Proof.
  split; [reflexivity|].
  destruct (pcmToWav_header scenarioHeap 1%positive scenarioSamples 24000
              eq_refl)
    as (blob & h' & Hrun & H0 & _ & _ & _ & _ & _ & _ & H24 & _ & H28 & _).
  exists blob, h'. repeat split; [exact Hrun|exact H0| |].
  - apply H24. split; [discriminate|reflexivity].
  - apply H28. split; [discriminate|reflexivity].
Defined.

(** C5. The samples follow the header from byte 44 on, in input order: the
    i-th sample is written at bytes [44 + 2 i] (its low-order byte) and
    [44 + 2 i + 1] (its high-order byte) as a signed 16-bit integer, and a
    signed 16-bit sample is read back there as it was given. *)
Theorem pcmToWav_samples (h : heap) pcmData samples sampleRate :
  elements h pcmData = Some samples ->
  exists blob h',
    pcmToWav pcmData sampleRate h = inr (blob, h') /\
    forall (i : nat) (v : Z),
      samples !! i = Some v ->
      blob_bytes blob !! (44 + 2 * i)%nat = Some (ToInt16 v mod 256) /\
      blob_bytes blob !! (44 + 2 * i + 1)%nat = Some ((ToInt16 v / 256) mod 256) /\
      (isInt16 v -> int16At (blob_bytes blob) (44 + 2 * i) = v).
Proof.
  intros Hp. eexists _, _. split; [apply pcmToWav_run; exact Hp|].
  cbn [blob_bytes]. intros i v Hi.
  pose proof (bytesAt_sample samples sampleRate i v Hi) as Hat.
  unfold int16At. rewrite Hat, int16_sampleBytes.
  unfold bytesAt, sampleBytes in Hat. simpl rawBytes in Hat.
  assert (forall k, take 2 (drop (44 + 2 * i) (wavBytes samples sampleRate)) !! k
                    = wavBytes samples sampleRate !! (44 + 2 * i + k)%nat
                    \/ (2 <= k)%nat) as Hk.
  { intros k. destruct (le_lt_dec 2 k) as [|Hlt]; [now right|left].
    rewrite lookup_take_lt by exact Hlt. apply lookup_drop. }
  repeat split.
  - destruct (Hk 0%nat) as [E|]; [|lia].
    rewrite Nat.add_0_r in E. rewrite <- E, Hat. reflexivity.
  - destruct (Hk 1%nat) as [E|]; [|lia].
    rewrite <- E, Hat. reflexivity.
  - apply ToInt16_small.
Qed.

Lemma pcmToWav_samples_witness :
  elements scenarioHeap 1%positive = Some scenarioSamples /\
  exists blob h',
    pcmToWav 1%positive 24000 scenarioHeap = inr (blob, h') /\
    blob_bytes blob !! 48%nat = Some 0 /\
    blob_bytes blob !! 49%nat = Some 128 /\
    int16At (blob_bytes blob) 48 = -32768.
Proof.
  split; [reflexivity|].
  destruct (pcmToWav_samples scenarioHeap 1%positive scenarioSamples 24000
              eq_refl) as (blob & h' & Hrun & Hat).
  exists blob, h'. split; [exact Hrun|].
  destruct (Hat 2%nat (-32768) eq_refl) as (Hlo & Hhi & Hval).
  repeat split; [exact Hlo|exact Hhi|].
  apply Hval. split; [reflexivity|discriminate].
Defined.

(** C6. The encoder does not check the sample rate: it returns for every
    sample rate, and with the rate 0 the sample-rate field (bytes 24-27) and
    the byte-rate field (bytes 28-31) hold 0. *)
Theorem pcmToWav_rate_unchecked (h : heap) pcmData samples :
  elements h pcmData = Some samples ->
  (forall sampleRate, exists blob h',
      pcmToWav pcmData sampleRate h = inr (blob, h')) /\
  exists blob h',
    pcmToWav pcmData 0 h = inr (blob, h') /\
    bytesAt (blob_bytes blob) 24 4 = [0; 0; 0; 0] /\
    uint32At (blob_bytes blob) 24 = 0 /\
    bytesAt (blob_bytes blob) 28 4 = [0; 0; 0; 0] /\
    uint32At (blob_bytes blob) 28 = 0.
Proof.
  intros Hp. split.
  - intros sampleRate. eexists _, _. apply pcmToWav_run. exact Hp.
  - eexists _, _. split; [apply pcmToWav_run; exact Hp|].
    cbn [blob_bytes]. unfold uint32At. rewrite !bytesAt_header by lia.
    repeat split; reflexivity.
Qed.

Lemma pcmToWav_rate_unchecked_witness :
  elements scenarioHeap 1%positive = Some scenarioSamples /\
  (exists blob h', pcmToWav 1%positive (-1) scenarioHeap = inr (blob, h')) /\
  exists blob h',
    pcmToWav 1%positive 0 scenarioHeap = inr (blob, h') /\
    uint32At (blob_bytes blob) 24 = 0 /\
    uint32At (blob_bytes blob) 28 = 0.
Proof.
  split; [reflexivity|].
  destruct (pcmToWav_rate_unchecked scenarioHeap 1%positive scenarioSamples
              eq_refl) as [Hany (blob & h' & Hrun & _ & H24 & _ & H28)].
  split; [apply Hany|].
  exists blob, h'. repeat split; assumption.
Defined.

Lemma ToInt16_congr v : ToInt16 v mod 2 ^ 16 = v mod 2 ^ 16.
Proof.
  unfold ToInt16. cbv zeta. literals.
  destruct (32768 <=? v mod 65536); [|now rewrite Z.mod_mod by lia].
  rewrite <- (Z_mod_plus_full (v mod 65536 - 65536) 1 65536).
  replace (v mod 65536 - 65536 + 1 * 65536) with (v mod 65536) by lia.
  now rewrite Z.mod_mod by lia.
Qed.

(** C9. Nothing is checked or clamped: for every integer [v] among the
    samples, in the signed 16-bit range or not, the two data bytes of [v]
    hold [v] reduced modulo 2^16 (read as signed: its two's-complement
    wrap-around), and the sample-rate field holds the sample rate reduced
    modulo 2^32. *)
Theorem pcmToWav_wraps (h : heap) pcmData samples sampleRate :
  elements h pcmData = Some samples ->
  exists blob h',
    pcmToWav pcmData sampleRate h = inr (blob, h') /\
    (forall (i : nat) (v : Z),
        samples !! i = Some v ->
        uint16At (blob_bytes blob) (44 + 2 * i) = v mod 2 ^ 16 /\
        int16At (blob_bytes blob) (44 + 2 * i) = ToInt16 v) /\
    uint32At (blob_bytes blob) 24 = sampleRate mod 2 ^ 32.
Proof.
  intros Hp. eexists _, _. split; [apply pcmToWav_run; exact Hp|].
  cbn [blob_bytes]. split; [|apply wavBytes_rate_fields].
  intros i v Hi. unfold uint16At, int16At.
  rewrite (bytesAt_sample samples sampleRate i v Hi). split.
  - unfold sampleBytes. rewrite uint16_rawBytes. apply ToInt16_congr.
  - apply int16_sampleBytes.
Qed.

Lemma pcmToWav_wraps_witness :
  elements wideHeap 1%positive = Some wideSamples /\
  exists blob h',
    pcmToWav 1%positive 4294991296 wideHeap = inr (blob, h') /\
    uint16At (blob_bytes blob) 44 = 32768 /\
    int16At (blob_bytes blob) 44 = -32768 /\
    int16At (blob_bytes blob) 46 = 32767 /\
    int16At (blob_bytes blob) 48 = 4464 /\
    uint32At (blob_bytes blob) 24 = 24000.
Proof.
  split; [reflexivity|].
  destruct (pcmToWav_wraps wideHeap 1%positive wideSamples 4294991296 eq_refl)
    as (blob & h' & Hrun & Hat & Hrate).
  exists blob, h'. split; [exact Hrun|].
  destruct (Hat 0%nat 32768 eq_refl) as [Hu0 Hs0].
  destruct (Hat 1%nat (-32769) eq_refl) as [_ Hs1].
  destruct (Hat 2%nat 70000 eq_refl) as [_ Hs2].
  repeat split; assumption.
Defined.

(** C1, as the claim states it, fails: a sample rate of 2^32 is decoded
    as 0. *)
Lemma wav_round_trip_counterexample :
  exists blob h',
    pcmToWav 1%positive 4294967296 scenarioHeap = inr (blob, h') /\
    wavDecode (blob_bytes blob) <> Some (scenarioSamples, 4294967296).
Proof.
  eexists _, _. split; [vm_compute; reflexivity|].
  vm_compute. discriminate.
Qed.

(** C1, amended. For every sequence of signed 16-bit samples and every
    sample rate in [0, 2^32), decoding the output of the encoder yields the
    original samples and the original sample rate. *)
Theorem wav_round_trip (h : heap) pcmData samples sampleRate :
  elements h pcmData = Some samples ->
  Forall isInt16 samples ->
  0 <= sampleRate < 2 ^ 32 ->
  exists blob h',
    pcmToWav pcmData sampleRate h = inr (blob, h') /\
    wavDecode (blob_bytes blob) = Some (samples, sampleRate).
Proof.
  intros Hp Hs Hr. eexists _, _. split; [apply pcmToWav_run; exact Hp|].
  cbn [blob_bytes].
  rewrite wavDecode_wavBytes, map_ToInt16_small by exact Hs.
  now rewrite Z.mod_small by exact Hr.
Qed.

Lemma scenarioSamples_int16 : Forall isInt16 scenarioSamples.
Proof. repeat constructor; discriminate. Qed.

Lemma wav_round_trip_witness :
  elements scenarioHeap 1%positive = Some scenarioSamples /\
  Forall isInt16 scenarioSamples /\
  0 <= 24000 < 2 ^ 32 /\
  exists blob h',
    pcmToWav 1%positive 24000 scenarioHeap = inr (blob, h') /\
    wavDecode (blob_bytes blob) = Some (scenarioSamples, 24000).
Proof.
  assert (0 <= 24000 < 2 ^ 32) as Hr by (split; [discriminate|reflexivity]).
  split; [reflexivity|]. split; [exact scenarioSamples_int16|].
  split; [exact Hr|].
  exact (wav_round_trip scenarioHeap 1%positive scenarioSamples 24000
           eq_refl scenarioSamples_int16 Hr).
Defined.

(** C8. The encoder is a function of the samples and of the sample rate:
    two calls that find the same samples, in whatever stores and behind
    whatever references, return the same blob, and so does a second call
    after the first; the call leaves every object of the store as it was,
    the samples among them. *)
Theorem pcmToWav_pure (h1 h2 : heap) p1 p2 samples sampleRate :
  elements h1 p1 = Some samples ->
  elements h2 p2 = Some samples ->
  exists blob h1' h2' h1'',
    pcmToWav p1 sampleRate h1 = inr (blob, h1') /\
    pcmToWav p2 sampleRate h2 = inr (blob, h2') /\
    pcmToWav p1 sampleRate h1' = inr (blob, h1'') /\
    elements h1' p1 = Some samples /\
    (forall l o, h1 !! l = Some o -> h1' !! l = Some o).
Proof.
  intros Hp1 Hp2.
  assert (elements (<[fresh (dom h1) :=
                       ArrayBuffer (wavBytes samples sampleRate)]> h1) p1
          = Some samples) as Hp1'
    by (apply elements_insert_fresh; [apply fresh_loc_None|exact Hp1]).
  eexists _, _, _, _.
  split; [apply pcmToWav_run; exact Hp1|].
  split; [apply pcmToWav_run; exact Hp2|].
  split; [apply pcmToWav_run; exact Hp1'|].
  split; [exact Hp1'|].
  intros l o Hl. rewrite lookup_insert_ne; [exact Hl|].
  intros <-. rewrite fresh_loc_None in Hl. discriminate.
Qed.

Lemma pcmToWav_pure_witness :
  elements scenarioHeap 1%positive = Some scenarioSamples /\
  elements viewHeap 2%positive = Some scenarioSamples /\
  exists blob h1' h2' h1'',
    pcmToWav 1%positive 24000 scenarioHeap = inr (blob, h1') /\
    pcmToWav 2%positive 24000 viewHeap = inr (blob, h2') /\
    pcmToWav 1%positive 24000 h1' = inr (blob, h1'') /\
    elements h1' 1%positive = Some scenarioSamples /\
    (forall l o, scenarioHeap !! l = Some o -> h1' !! l = Some o).
Proof.
  split; [reflexivity|]. split; [reflexivity|].
  apply (pcmToWav_pure scenarioHeap viewHeap 1%positive 2%positive
           scenarioSamples 24000); reflexivity.
Defined.

(** * The sample rate of a MIME type *)

Local Open Scope string_scope.
Local Arguments append !_ _ / : simpl nomatch.

Lemma stripPrefix_Some p : forall s r, stripPrefix p s = Some r -> s = p ++ r.
Proof.
  induction p as [|a p IH]; intros s r H.
  - simpl in H. now injection H as ->.
  - destruct s as [|b s]; [discriminate|]. simpl in H.
    destruct (Ascii.eqb a b) eqn:E; [|discriminate].
    apply Ascii.eqb_eq in E as ->. simpl. f_equal. now apply IH.
Qed.

Lemma stripPrefix_app p r : stripPrefix p (p ++ r) = Some r.
Proof.
  induction p as [|a p IH]; [reflexivity|].
  simpl. now rewrite Ascii.eqb_refl.
Qed.

Lemma digitsPrefix_app ds rest :
  allDigits ds = true -> noLeadingDigit rest -> digitsPrefix (ds ++ rest) = ds.
Proof.
  intros Hds Hrest. induction ds as [|c ds IH].
  - destruct rest as [|c rest]; [reflexivity|]. simpl in *. now rewrite Hrest.
  - simpl in *. apply andb_prop in Hds as [-> Hds]. f_equal. now apply IH.
Qed.

Lemma digitsPrefix_all ds : allDigits ds = true -> digitsPrefix ds = ds.
Proof.
  intros Hds. pose proof (digitsPrefix_app ds "" Hds I) as H.
  assert (ds ++ "" = ds) as E by (clear; induction ds; simpl; congruence).
  now rewrite E in H.
Qed.

(** The anchored attempt succeeds exactly where [rate=] and a digit are. *)
Lemma matchRateHere_rateAt s m : matchRateHere s = Some m -> rateAt "" s.
Proof.
  unfold matchRateHere.
  destruct (stripPrefix "rate=" s) as [r|] eqn:E; [|discriminate].
  apply stripPrefix_Some in E as ->.
  destruct r as [|c r]; [discriminate|]. cbn [digitsPrefix].
  destruct (isDigit c) eqn:Hc; [|discriminate].
  intros _. exists c, r. split; [exact Hc|reflexivity].
Qed.

Lemma rateAt_matchRateHere s : rateAt "" s -> matchRateHere s <> None.
Proof.
  intros (d & rest & Hd & ->). unfold matchRateHere.
  change ("" ++ "rate=" ++ String d rest) with ("rate=" ++ String d rest).
  rewrite stripPrefix_app. cbn [digitsPrefix]. rewrite Hd. discriminate.
Qed.

Lemma rateAt_cons c pre c' s :
  rateAt (String c pre) (String c' s) <-> c = c' /\ rateAt pre s.
Proof.
  split.
  - intros (d & rest & Hd & E). simpl in E. injection E as -> ->.
    split; [reflexivity|]. now exists d, rest.
  - intros [-> (d & rest & Hd & ->)]. now exists d, rest.
Qed.

Lemma rateAt_nonempty pre : ~ rateAt pre "".
Proof. intros (d & rest & _ & E). destruct pre; discriminate. Qed.

(** The search finds nothing exactly when [rate=] and a digit occur
    nowhere. *)
Lemma matchRate_None s : matchRate s = None <-> forall pre, ~ rateAt pre s.
Proof.
  split.
  - induction s as [|c s IH]; intros H pre Hat.
    + exact (rateAt_nonempty pre Hat).
    + cbn [matchRate] in H.
      destruct (matchRateHere (String c s)) eqn:E; [discriminate|].
      destruct pre as [|c' pre].
      * apply rateAt_matchRateHere in Hat. contradiction.
      * apply rateAt_cons in Hat as [_ Hat]. exact (IH H pre Hat).
  - induction s as [|c s IH]; intros H.
    + reflexivity.
    + cbn [matchRate].
      destruct (matchRateHere (String c s)) eqn:E.
      * apply matchRateHere_rateAt in E. destruct (H "" E).
      * apply IH. intros pre Hat. apply (H (String c pre)).
        apply rateAt_cons. now split.
Qed.

(** The search returns the leftmost occurrence, with the longest run of
    digits as its capture. *)
Lemma matchRate_leftmost pre : forall ds rest,
  ds <> "" -> allDigits ds = true -> noLeadingDigit rest ->
  (forall pre', rateAt pre' (pre ++ "rate=" ++ ds ++ rest) ->
                (String.length pre <= String.length pre')%nat) ->
  matchRate (pre ++ "rate=" ++ ds ++ rest)
  = Some {| group0 := "rate=" ++ ds; group1 := ds |}.
Proof.
  induction pre as [|c pre IH]; intros ds rest Hne Hds Hrest Hleft.
  - change ("" ++ "rate=" ++ ds ++ rest) with ("rate=" ++ ds ++ rest).
    assert (matchRateHere ("rate=" ++ ds ++ rest)
            = Some {| group0 := "rate=" ++ ds; group1 := ds |}) as E.
    { unfold matchRateHere. rewrite stripPrefix_app, digitsPrefix_app by assumption.
      destruct ds; [contradiction|reflexivity]. }
    destruct rest; destruct ds; try contradiction;
      cbn [matchRate append] in *; now rewrite E.
  - change (String c pre ++ "rate=" ++ ds ++ rest)
      with (String c (pre ++ "rate=" ++ ds ++ rest)) in *.
    cbn [matchRate].
    destruct (matchRateHere (String c (pre ++ "rate=" ++ ds ++ rest))) eqn:E.
    + apply matchRateHere_rateAt, Hleft in E. simpl in E. lia.
    + apply IH; try assumption.
      intros pre' Hat. apply Nat.succ_le_mono.
      apply (Hleft (String c pre')). apply rateAt_cons. now split.
Qed.

Lemma digitValue_fold l : forall acc,
  fold_left (fun a c => 10 * a + digitValue c) l acc
  = acc * 10 ^ Z.of_nat (length l) + decimalValue (string_of_list_ascii l).
Proof.
  induction l as [|c l IH]; intros acc.
  - simpl. lia.
  - cbn [fold_left string_of_list_ascii decimalValue length]. rewrite IH.
    assert (String.length (string_of_list_ascii l) = length l) as ->
      by (clear; induction l; simpl; congruence).
    rewrite Nat2Z.inj_succ, Z.pow_succ_r by lia. ring.
Qed.

Lemma parseInt10_decimal ds :
  allDigits ds = true -> parseInt10 ds = toDouble (decimalValue ds).
Proof.
  intros Hds. unfold parseInt10.
  rewrite digitsPrefix_all, digitValue_fold by exact Hds.
  now rewrite string_of_list_ascii_of_string.
Qed.

Local Close Scope string_scope.

(** * From base64 to samples *)

Lemma new_Uint8Array_run (h : heap) len :
  0 <= len ->
  let b := fresh (dom h) in
  let h1 := <[b := ArrayBuffer (repeat 0 (Z.to_nat len))]> h in
  let a := fresh (dom h1) in
  new_Uint8Array len h = inr (a, <[a := Uint8Array b]> h1).
Proof.
  intros Hlen. cbv zeta. unfold new_Uint8Array.
  erewrite bind_run.
  2:{ unfold new_ArrayBuffer.
      destruct (len <? 0) eqn:E; [apply Z.ltb_lt in E; lia|reflexivity]. }
  reflexivity.
Qed.

Lemma codes_length s : length (codes s) = String.length s.
Proof.
  unfold codes. rewrite length_map.
  induction s as [|c s IH]; simpl; congruence.
Qed.

(** Filling a zeroed buffer from left to right through its [Uint8Array]. *)
Lemma fillBytes_run (h : heap) a b s : forall pre i,
  a <> b -> h !! a = Some (Uint8Array b) -> i = length pre ->
  fillBytes a s i (<[b := ArrayBuffer (pre ++ repeat 0 (String.length s))]> h)
  = inr (tt, <[b := ArrayBuffer (pre ++ codes s)]> h).
Proof.
  induction s as [|c s IH]; intros pre i Hab Ha ->.
  - reflexivity.
  - cbn [fillBytes String.length].
    erewrite bind_run.
    2:{ unfold set_index.
        rewrite lookup_insert_ne, Ha, lookup_insert_eq by congruence.
        reflexivity. }
    rewrite insert_insert_eq, ToUint8_charCode.
    rewrite insert_app_r_alt, Nat.sub_diag by reflexivity.
    cbn [repeat]. simpl insert.
    replace (pre ++ charCode c :: repeat 0 (String.length s))
      with ((pre ++ [charCode c]) ++ repeat 0 (String.length s))
      by now rewrite <- app_assoc.
    rewrite (IH (pre ++ [charCode c]) (S (length pre)) Hab Ha)
      by (rewrite length_app; simpl; lia).
    unfold codes. simpl. now rewrite <- app_assoc.
Qed.

Section Conversion.

Variable atob : string -> exn + string.

(** The buffer of [base64ToArrayBuffer] is fresh and holds the character
    codes of the decoded string; the objects of the store stay. *)
Lemma base64ToArrayBuffer_run (h : heap) base64 binaryString :
  atob base64 = inr binaryString ->
  exists buffer h',
    base64ToArrayBuffer atob base64 h = inr (buffer, h') /\
    h' !! buffer = Some (ArrayBuffer (codes binaryString)) /\
    h !! buffer = None.
Proof.
  intros Hatob. unfold base64ToArrayBuffer. rewrite Hatob.
  erewrite bind_run by (apply new_Uint8Array_run; lia).
  set (b := fresh (dom h)).
  set (h1 := <[b := ArrayBuffer _]> h).
  set (a := fresh (dom h1)).
  assert (h1 !! a = None) as Ha by apply fresh_loc_None.
  assert (a <> b) as Hab.
  { intros E. rewrite E in Ha. unfold h1 in Ha.
    rewrite lookup_insert_eq in Ha. discriminate. }
  unfold h1. rewrite insert_insert_ne by exact Hab.
  rewrite Nat2Z.id.
  erewrite bind_run.
  2:{ apply (fillBytes_run _ a b binaryString [] 0%nat Hab);
        [apply lookup_insert_eq|reflexivity]. }
  unfold get_buffer.
  rewrite lookup_insert_ne, lookup_insert_eq by congruence.
  eexists _, _. split; [reflexivity|].
  split; [apply lookup_insert_eq|apply fresh_loc_None].
Qed.

Lemma new_Int16Array_odd (h : heap) buffer bytes :
  h !! buffer = Some (ArrayBuffer bytes) ->
  Nat.odd (length bytes) = true ->
  new_Int16Array buffer h = inl RangeError.
Proof.
  intros Hb Hodd. unfold new_Int16Array. rewrite Hb.
  apply Nat.odd_spec in Hodd as [k Hk]. rewrite Hk.
  replace (Z.of_nat (2 * k + 1)) with (1 + Z.of_nat k * 2) by lia.
  now rewrite Z_mod_plus_full.
Qed.

Lemma new_Int16Array_even (h : heap) buffer bytes :
  h !! buffer = Some (ArrayBuffer bytes) ->
  Nat.even (length bytes) = true ->
  let a := fresh (dom h) in
  new_Int16Array buffer h = inr (a, <[a := Int16Array buffer]> h) /\
  elements (<[a := Int16Array buffer]> h) a = Some (int16s bytes).
Proof.
  intros Hb Heven. cbv zeta. unfold new_Int16Array. rewrite Hb.
  apply Nat.even_spec in Heven as [k Hk]. rewrite Hk.
  replace (Z.of_nat (2 * k)) with (0 + Z.of_nat k * 2) by lia.
  rewrite Z_mod_plus_full. split; [reflexivity|].
  unfold elements. rewrite lookup_insert_eq, lookup_insert_ne, Hb; [reflexivity|].
  intros E. rewrite <- E, fresh_loc_None in Hb. discriminate.
Qed.

End Conversion.

Lemma sampleBytes_int16 b0 b1 :
  0 <= b0 < 256 -> 0 <= b1 < 256 ->
  sampleBytes (ToInt16 (b0 + 256 * b1)) = [b0; b1].
Proof.
  intros H0 H1. unfold sampleBytes. rewrite ToInt16_idem.
  unfold ToInt16. cbv zeta. literals.
  rewrite (Z.mod_small (b0 + 256 * b1)) by lia.
  cbn [rawBytes].
  destruct (32768 <=? b0 + 256 * b1); do 2 f_equal;
    Z.div_mod_to_equations; lia.
Qed.

(** Re-encoding the samples of a byte sequence gives the bytes back. *)
Lemma sampleData_int16s k : forall bytes,
  length bytes = (2 * k)%nat ->
  Forall (fun b => 0 <= b < 256) bytes ->
  flat_map sampleBytes (int16s bytes) = bytes.
Proof.
  induction k as [|k IH]; intros bytes Hlen Hrange.
  - destruct bytes; [reflexivity|discriminate].
  - destruct bytes as [|b0 [|b1 bytes]]; try (simpl in Hlen; lia).
    inversion Hrange as [|? ? H0 Hrange']; subst.
    inversion Hrange' as [|? ? H1 Hrange'']; subst.
    cbn [int16s flat_map].
    rewrite sampleBytes_int16 by assumption.
    rewrite IH; [reflexivity| simpl in Hlen; lia | assumption].
Qed.

Lemma int16s_length k : forall bytes,
  length bytes = (2 * k)%nat -> length (int16s bytes) = k.
Proof.
  induction k as [|k IH]; intros bytes Hlen.
  - destruct bytes; [reflexivity|discriminate].
  - destruct bytes as [|b0 [|b1 bytes]]; try (simpl in Hlen; lia).
    cbn [int16s length]. f_equal. apply IH. simpl in Hlen. lia.
Qed.

Lemma codes_range s : Forall (fun b => 0 <= b < 256) (codes s).
Proof. unfold codes. apply Forall_map, Forall_forall. intros c _. apply charCode_range. Qed.

(** C10. [base64ToArrayBuffer] returns a buffer with one byte per character
    of the decoded string. When their number is odd, [new Int16Array]
    throws a [RangeError] and the conversion ends there, before the encoder.
    When it is even, the encoder receives half as many samples, every one
    of two bytes: the data of the container are the decoded bytes. *)
Theorem handleTtsClick_whole_samples
    (atob : string -> exn + string) (audioData mimeType binaryString : string)
    (h : heap) :
  atob audioData = inr binaryString ->
  truthy audioData && truthy mimeType && startsWith mimeType "audio/L16" = true ->
  (exists buffer h' bytes,
      base64ToArrayBuffer atob audioData h = inr (buffer, h') /\
      h' !! buffer = Some (ArrayBuffer bytes) /\
      bytes = codes binaryString /\
      length bytes = String.length binaryString /\
      (Nat.odd (length bytes) = true ->
       new_Int16Array buffer h' = inl RangeError)) /\
  (Nat.odd (String.length binaryString) = true ->
   handleTtsClick atob audioData mimeType h = inl RangeError) /\
  (Nat.even (String.length binaryString) = true ->
   exists blob h'',
     handleTtsClick atob audioData mimeType h = inr (Some blob, h'') /\
     length (blob_bytes blob) = (44 + String.length binaryString)%nat /\
     drop 44 (blob_bytes blob) = codes binaryString /\
     (2 * length (int16s (codes binaryString)))%nat
     = String.length binaryString).
Proof.
  intros Hatob Hguard.
  destruct (base64ToArrayBuffer_run atob h audioData binaryString Hatob)
    as (buffer & h' & Hrun & Hbuf & _).
  split; [|split].
  - exists buffer, h', (codes binaryString).
    repeat split; [exact Hrun|exact Hbuf|apply codes_length|].
    intros Hodd. eapply new_Int16Array_odd; eassumption.
  - intros Hodd. unfold handleTtsClick. rewrite Hguard.
    rewrite (bind_run _ _ _ _ _ Hrun).
    apply bind_throw. eapply new_Int16Array_odd; [exact Hbuf|].
    now rewrite codes_length.
  - intros Heven. unfold handleTtsClick. rewrite Hguard.
    rewrite (bind_run _ _ _ _ _ Hrun).
    rewrite <- (codes_length binaryString) in Heven.
    destruct (new_Int16Array_even h' buffer _ Hbuf Heven) as [Hview Helems].
    rewrite (bind_run _ _ _ _ _ Hview).
    rewrite (bind_run _ _ _ _ _
               (pcmToWav_run _ _ _ (sampleRateOf mimeType) Helems)).
    eexists _, _. split; [reflexivity|]. cbn [blob_bytes].
    apply Nat.even_spec in Heven as [k Hk].
    rewrite wavBytes_length, (int16s_length k _ Hk).
    rewrite <- (codes_length binaryString), Hk.
    repeat split.
    unfold wavBytes.
    rewrite drop_app_length' by (symmetry; apply wavHeader_length).
    apply (sampleData_int16s k); [exact Hk|apply codes_range].
Qed.

Lemma handleTtsClick_whole_samples_witness :
  (exists binaryString,
      atob "AAD/fwCA6AM=" = inr binaryString /\
      codes binaryString = [0; 0; 255; 127; 0; 128; 232; 3] /\
      exists blob h'',
        handleTtsClick atob "AAD/fwCA6AM=" "audio/L16;rate=24000" ∅
        = inr (Some blob, h'') /\
        length (blob_bytes blob) = 52%nat /\
        drop 44 (blob_bytes blob) = [0; 0; 255; 127; 0; 128; 232; 3]) /\
  (exists binaryString,
      atob "AAD/fwCA6A==" = inr binaryString /\
      codes binaryString = [0; 0; 255; 127; 0; 128; 232] /\
      handleTtsClick atob "AAD/fwCA6A==" "audio/L16;rate=24000" ∅
      = inl RangeError).
Proof.
  split.
  - eexists. split; [reflexivity|]. split; [reflexivity|].
    destruct (handleTtsClick_whole_samples atob "AAD/fwCA6AM="
                "audio/L16;rate=24000" _ ∅ eq_refl eq_refl)
      as (_ & _ & Heven).
    destruct (Heven eq_refl) as (blob & h'' & Hrun & Hlen & Hdata & _).
    exists blob, h''. repeat split; assumption.
  - eexists. split; [reflexivity|]. split; [reflexivity|].
    destruct (handleTtsClick_whole_samples atob "AAD/fwCA6A=="
                "audio/L16;rate=24000" _ ∅ eq_refl eq_refl)
      as (_ & Hodd & _).
    apply Hodd. reflexivity.
Defined.

(** * The Number of a run of digits *)

(** Below 2^53 the conversion is exact. *)
Lemma toDouble_exact n : 0 <= n < 2 ^ 53 -> toDouble n = Finite n.
Proof.
  intros Hn. unfold toDouble. cbv zeta.
  assert (Z.log2 n - 52 <= 0) as He.
  { destruct (Z.eq_dec n 0) as [->|Hz]; [discriminate|].
    assert (Z.log2 n < 53) by (apply Z.log2_lt_pow2; lia). lia. }
  apply Z.leb_le in He. now rewrite He.
Qed.

(** From 2^53 on the result is a multiple of [2 ^ e] with a factor of 53
    bits (or 2^53), within half of [2 ^ e] of the number, and with an even
    factor when it is just half of [2 ^ e] away. *)
Lemma toDouble_nearest n v :
  2 ^ 53 <= n -> toDouble n = Finite v ->
  exists k,
    v = k * 2 ^ (Z.log2 n - 52) /\
    2 ^ 52 <= k <= 2 ^ 53 /\
    2 * Z.abs (v - n) <= 2 ^ (Z.log2 n - 52) /\
    (2 * Z.abs (v - n) = 2 ^ (Z.log2 n - 52) -> Z.even k = true).
Proof.
  intros Hn. unfold toDouble. cbv zeta.
  assert (0 < n) as Hpos
    by (assert (0 < 2 ^ 53) by (apply Z.pow_pos_nonneg; lia); lia).
  assert (53 <= Z.log2 n) as Hlog by (apply Z.log2_le_pow2; lia).
  pose proof (Z.log2_spec n Hpos) as [Hlo Hhi].
  remember (Z.log2 n - 52) as e eqn:He.
  assert (0 < e) as Hepos by lia.
  destruct (e <=? 0) eqn:Ele; [apply Z.leb_le in Ele; lia|].
  assert (0 < 2 ^ e) as HH by (apply Z.pow_pos_nonneg; lia).
  assert (2 ^ e = 2 * 2 ^ (e - 1)) as Hhalf.
  { rewrite <- Z.pow_succ_r by lia. f_equal. lia. }
  assert (2 ^ Z.log2 n = 2 ^ 52 * 2 ^ e) as Hp.
  { rewrite <- Z.pow_add_r by lia. f_equal. lia. }
  assert (2 ^ Z.succ (Z.log2 n) = 2 ^ 53 * 2 ^ e) as Hp'.
  { rewrite <- Z.pow_add_r by lia. f_equal. lia. }
  rewrite Hp in Hlo. rewrite Hp' in Hhi.
  pose proof (Z.div_mod n (2 ^ e) ltac:(lia)) as Hdm.
  pose proof (Z.mod_pos_bound n (2 ^ e) HH) as Hr.
  assert (2 ^ 52 <= n / 2 ^ e) as Hq1 by (apply Z.div_le_lower_bound; lia).
  assert (n / 2 ^ e < 2 ^ 53) as Hq2 by (apply Z.div_lt_upper_bound; lia).
  remember (n / 2 ^ e) as q. remember (n mod 2 ^ e) as r.
  remember (2 ^ e) as H. remember (2 ^ (e - 1)) as half.
  change (2 ^ 52) with 4503599627370496 in *.
  change (2 ^ 53) with 9007199254740992 in *.
  destruct ((half <? r) || ((r =? half) && Z.odd q)) eqn:Eup.
  - destruct ((q + 1) * H <? 2 ^ 1024); [|discriminate].
    intros [= <-]. exists (q + 1).
    assert (half <= r) as Hge.
    { apply orb_true_iff in Eup as [E|E].
      - apply Z.ltb_lt in E. lia.
      - apply andb_true_iff in E as [E _]. apply Z.eqb_eq in E. lia. }
    split; [reflexivity|]. split; [lia|].
    assert ((q + 1) * H - n = H - r) as -> by nia.
    rewrite Z.abs_eq by lia. split; [lia|].
    intros Htie. assert (r = half) as Hrh by lia.
    apply orb_true_iff in Eup as [E|E]; [apply Z.ltb_lt in E; lia|].
    apply andb_true_iff in E as [_ E].
    rewrite Z.even_add, <- Z.negb_odd, E. reflexivity.
  - destruct (q * H <? 2 ^ 1024); [|discriminate].
    intros [= <-]. exists q.
    apply orb_false_iff in Eup as [E1 E2]. apply Z.ltb_ge in E1.
    split; [reflexivity|]. split; [lia|].
    assert (q * H - n = - r) as -> by nia.
    rewrite Z.abs_neq by lia. split; [lia|].
    intros Htie. assert (r = half) as Hrh by lia.
    apply andb_false_iff in E2 as [E|E]; [apply Z.eqb_neq in E; lia|].
    now rewrite <- Z.negb_odd, E.
Qed.

Lemma toDouble_nonneg n : 0 <= n -> 0 <= integerOf (toDouble n).
Proof.
  intros Hn. unfold toDouble. cbv zeta.
  destruct (Z.log2 n - 52 <=? 0) eqn:E; [exact Hn|].
  apply Z.leb_gt in E.
  assert (0 < 2 ^ (Z.log2 n - 52)) as HH by (apply Z.pow_pos_nonneg; lia).
  assert (0 <= n / 2 ^ (Z.log2 n - 52)) as Hq
    by (apply Z.div_pos; [exact Hn|exact HH]).
  match goal with
  | |- context [if ?b then _ + 1 else _] => destruct b
  end;
    match goal with
    | |- context [if ?b then Finite _ else _] => destruct b
    end; cbn [integerOf]; nia.
Qed.

(** * The sample rate handed to the encoder *)

Local Open Scope string_scope.

(** A conversion that encodes hands [sampleRateOf mimeType] to the
    encoder. *)
Lemma handleTtsClick_rate (atob : string -> exn + string)
    (audioData mimeType : string) (h : heap) blob h' :
  handleTtsClick atob audioData mimeType h = inr (Some blob, h') ->
  exists samples,
    blob_bytes blob = wavBytes samples (sampleRateOf mimeType).
Proof.
  unfold handleTtsClick.
  destruct (truthy audioData && truthy mimeType
            && startsWith mimeType "audio/L16"); [|discriminate].
  destruct (atob audioData) as [e|binaryString] eqn:Hatob.
  - unfold base64ToArrayBuffer. rewrite Hatob. discriminate.
  - destruct (base64ToArrayBuffer_run atob h audioData binaryString Hatob)
      as (buffer & h1 & Hrun & Hbuf & _).
    rewrite (bind_run _ _ _ _ _ Hrun).
    destruct (Nat.even (length (codes binaryString))) eqn:Heven.
    + destruct (new_Int16Array_even h1 buffer _ Hbuf Heven) as [Hview Helems].
      rewrite (bind_run _ _ _ _ _ Hview).
      rewrite (bind_run _ _ _ _ _
                 (pcmToWav_run _ _ _ (sampleRateOf mimeType) Helems)).
      intros E. injection E as <- _. now eexists.
    + erewrite bind_throw; [discriminate|].
      eapply new_Int16Array_odd; [exact Hbuf|].
      now rewrite <- Nat.negb_even, Heven.
Qed.

Lemma decimalValue_nonneg ds : allDigits ds = true -> (0 <= decimalValue ds)%Z.
Proof.
  induction ds as [|c ds IH]; intros Hds; [reflexivity|].
  cbn [allDigits decimalValue] in *. apply andb_prop in Hds as [Hc Hds].
  unfold isDigit in Hc. apply andb_prop in Hc as [Hlo _].
  apply Z.leb_le in Hlo. specialize (IH Hds).
  assert (0 <= 10 ^ Z.of_nat (String.length ds))%Z by (apply Z.pow_nonneg; lia).
  unfold digitValue. nia.
Qed.

(** [toDouble] and the IEEE 754 conversion of the standard library agree
    below and above 2^53, at ties, and where the doubles end. *)
Lemma toDouble_IEEE_examples :
  Forall (fun n => toDouble n = toDoubleIEEE n)
    [0; 1; 24000; 2 ^ 53 - 1; 2 ^ 53; 2 ^ 53 + 1; 2 ^ 53 + 2; 2 ^ 53 + 3;
     2 ^ 54 + 2; 2 ^ 54 + 6; 99999999999999999999999; 10 ^ 22; 10 ^ 23;
     2 ^ 100 + 2 ^ 47; 2 ^ 100 + 2 ^ 47 + 1; 2 ^ 100 + 3 * 2 ^ 47;
     10 ^ 300 + 1; 2 ^ 1024 - 2 ^ 970 - 1; 2 ^ 1024 - 2 ^ 970;
     2 ^ 1024 - 1; 2 ^ 1024; 10 ^ 400]%Z.
Proof. repeat (constructor; [vm_compute; reflexivity|]). constructor. Qed.

(** C7, as the claim states it, fails: the digits of
    [rate=9007199254740993] denote 2^53 + 1, and the sample rate is
    2^53. *)
Lemma sampleRateOf_mimeType_counterexample :
  sampleRateOf "audio/L16;rate=9007199254740993"
  <> decimalValue "9007199254740993".
Proof. vm_compute. discriminate. Qed.

(** C7, amended. The sample rate comes from the leftmost [rate=] that a
    digit follows, with all the digits that follow it: it is the Number
    that [parseInt] returns for them, which is their decimal value when
    this is below 2^53 and otherwise the double nearest to it (the even one
    of two), or +Infinity beyond the doubles. For every MIME type in which
    [rate=] followed by a digit does not occur it is 24000. The encoder
    receives it and writes it, modulo 2^32 (+Infinity as 0), into the
    sample-rate field. *)
Theorem sampleRateOf_mimeType (mimeType : string) :
  (forall pre ds rest,
      mimeType = pre ++ "rate=" ++ ds ++ rest ->
      ds <> "" -> allDigits ds = true -> noLeadingDigit rest ->
      (forall pre', rateAt pre' mimeType ->
                    (String.length pre <= String.length pre')%nat) ->
      sampleRateNumber mimeType = toDouble (decimalValue ds) /\
      ((decimalValue ds < 2 ^ 53)%Z ->
       sampleRateNumber mimeType = Finite (decimalValue ds) /\
       sampleRateOf mimeType = decimalValue ds) /\
      ((2 ^ 53 <= decimalValue ds)%Z ->
       forall v, sampleRateNumber mimeType = Finite v ->
       exists k,
         (v = k * 2 ^ (Z.log2 (decimalValue ds) - 52) /\
          2 ^ 52 <= k <= 2 ^ 53 /\
          2 * Z.abs (v - decimalValue ds)
          <= 2 ^ (Z.log2 (decimalValue ds) - 52) /\
          (2 * Z.abs (v - decimalValue ds)
           = 2 ^ (Z.log2 (decimalValue ds) - 52) ->
           Z.even k = true))%Z)) /\
  ((forall pre, ~ rateAt pre mimeType) ->
   sampleRateNumber mimeType = Finite 24000 /\
   sampleRateOf mimeType = 24000%Z) /\
  (forall (atob : string -> exn + string) audioData (h : heap) blob h',
      handleTtsClick atob audioData mimeType h = inr (Some blob, h') ->
      uint32At (blob_bytes blob) 24
      = (integerOf (sampleRateNumber mimeType) mod 2 ^ 32)%Z).
Proof.
  split; [|split].
  - intros pre ds rest -> Hne Hds Hrest Hleft.
    assert (sampleRateNumber (pre ++ "rate=" ++ ds ++ rest)
            = toDouble (decimalValue ds)) as Hnum.
    { unfold sampleRateNumber.
      rewrite matchRate_leftmost by assumption. cbn [group1].
      now apply parseInt10_decimal. }
    split; [exact Hnum|]. split.
    + intros Hsmall. unfold sampleRateOf. rewrite Hnum.
      rewrite toDouble_exact
        by (split; [now apply decimalValue_nonneg|exact Hsmall]).
      now split.
    + intros Hbig v Hv. rewrite Hnum in Hv.
      exact (toDouble_nearest _ _ Hbig Hv).
  - intros Hno. unfold sampleRateOf, sampleRateNumber.
    now rewrite (proj2 (matchRate_None mimeType) Hno).
  - intros atob' audioData h blob h' Hrun.
    apply handleTtsClick_rate in Hrun as [samples ->].
    apply wavBytes_rate_fields.
Qed.

Lemma sampleRateOf_mimeType_witness :
  (forall ds pre', rateAt pre' ("audio/L16;rate=" ++ ds) ->
                   (String.length "audio/L16;" <= String.length pre')%nat) /\
  sampleRateOf "audio/L16;rate=16000" = 16000%Z /\
  sampleRateNumber "audio/L16;rate=9007199254740993"
  = Finite 9007199254740992 /\
  (forall pre, ~ rateAt pre "audio/L16;codec=pcm") /\
  sampleRateOf "audio/L16;codec=pcm" = 24000%Z /\
  exists blob h',
    handleTtsClick atob "AAD/fwCA6AM=" "audio/L16;rate=99999999999999999999999"
                   ∅ = inr (Some blob, h') /\
    uint32At (blob_bytes blob) 24 = 4127195136%Z.
Proof.
  assert (forall ds pre', rateAt pre' ("audio/L16;rate=" ++ ds) ->
                          (String.length "audio/L16;" <= String.length pre')%nat)
    as Hleft.
  { intros ds pre' H. cbn [append] in H.
    do 10 (destruct pre' as [|? pre'];
           [apply rateAt_matchRateHere in H; exfalso; apply H; reflexivity
           |apply rateAt_cons in H as [_ H]]).
    simpl. lia. }
  assert (forall pre, ~ rateAt pre "audio/L16;codec=pcm") as Hno
    by (apply matchRate_None; reflexivity).
  split; [exact Hleft|].
  split; [|split; [|split; [exact Hno|split]]].
  - destruct (proj1 (sampleRateOf_mimeType "audio/L16;rate=16000")
                "audio/L16;" "16000" "" eq_refl) as (_ & Hexact & _);
      [discriminate|reflexivity|exact I|exact (Hleft "16000")|].
    apply Hexact. reflexivity.
  - destruct (proj1 (sampleRateOf_mimeType "audio/L16;rate=9007199254740993")
                "audio/L16;" "9007199254740993" "" eq_refl) as (Hnum & _);
      [discriminate|reflexivity|exact I|exact (Hleft "9007199254740993")|].
    exact Hnum.
  - exact (proj2 (proj1 (proj2 (sampleRateOf_mimeType "audio/L16;codec=pcm"))
                    Hno)).
  - assert (exists blob h',
              handleTtsClick atob "AAD/fwCA6AM="
                "audio/L16;rate=99999999999999999999999" ∅
              = inr (Some blob, h')) as (blob & h' & Hrun)
      by (eexists _, _; vm_compute; reflexivity).
    exists blob, h'. split; [exact Hrun|].
    exact (proj2 (proj2 (sampleRateOf_mimeType
                           "audio/L16;rate=99999999999999999999999"))
             atob _ ∅ blob h' Hrun).
Defined.

Local Close Scope string_scope.

(** * Further properties of the helpers *)

Lemma splice_length off bs (bytes : list Z) :
  (off + length bs <= length bytes)%nat ->
  length (splice off bs bytes) = length bytes.
Proof.
  intros Hfit. unfold splice.
  rewrite !length_app, length_take, length_drop. lia.
Qed.

Lemma splice_lookup_in off bs (bytes : list Z) i :
  (off <= length bytes)%nat -> (i < length bs)%nat ->
  splice off bs bytes !! (off + i)%nat = bs !! i.
Proof.
  intros Hoff Hi. unfold splice.
  rewrite lookup_app_r by (rewrite length_take; lia).
  rewrite length_take, (Nat.min_l off (length bytes)) by lia.
  replace (off + i - off)%nat with i by lia.
  now apply lookup_app_l.
Qed.

Lemma splice_lookup_out off bs (bytes : list Z) j :
  (off + length bs <= length bytes)%nat ->
  (j < off \/ off + length bs <= j)%nat ->
  splice off bs bytes !! j = bytes !! j.
Proof.
  intros Hfit [Hlt|Hge]; unfold splice.
  - rewrite lookup_app_l by (rewrite length_take; lia).
    now apply lookup_take_lt.
  - rewrite lookup_app_r by (rewrite length_take; lia).
    rewrite length_take, (Nat.min_l off (length bytes)) by lia.
    rewrite lookup_app_r by lia.
    rewrite lookup_drop. f_equal. lia.
Qed.

Lemma splice_splice off (bs1 bs2 bytes : list Z) :
  (off + length bs1 + length bs2 <= length bytes)%nat ->
  splice (off + length bs1) bs2 (splice off bs1 bytes)
  = splice off (bs1 ++ bs2) bytes.
Proof.
  intros Hfit. unfold splice.
  rewrite take_app_add' by (rewrite length_take; lia).
  replace (off + length bs1 + length bs2)%nat
    with (off + (length bs1 + length bs2))%nat by lia.
  rewrite (drop_app_add' (take off bytes) _ off) by (rewrite length_take; lia).
  rewrite take_app_length, drop_app_add', drop_drop, length_app by reflexivity.
  rewrite <- !app_assoc. do 4 f_equal. lia.
Qed.

Lemma splice_nil off (bytes : list Z) : splice off [] bytes = bytes.
Proof. unfold splice. simpl. rewrite Nat.add_0_r. apply take_drop. Qed.

Lemma setBytes_run (h : heap) b bytes off bs :
  h !! b = Some (ArrayBuffer bytes) ->
  0 <= off -> off + Z.of_nat (length bs) <= Z.of_nat (length bytes) ->
  setBytes (new_DataView b) off bs h
  = inr (tt, <[b := ArrayBuffer (splice (Z.to_nat off) bs bytes)]> h).
Proof.
  intros Hb H0 Hfit. unfold setBytes. simpl dv_buffer. rewrite Hb.
  destruct (0 <=? off) eqn:E1; [|apply Z.leb_gt in E1; lia].
  destruct (off + Z.of_nat (length bs) <=? Z.of_nat (length bytes)) eqn:E2;
    [reflexivity|apply Z.leb_gt in E2; lia].
Qed.

Lemma setBytes_RangeError (h : heap) b bytes off bs :
  h !! b = Some (ArrayBuffer bytes) ->
  off < 0 \/ Z.of_nat (length bytes) < off + Z.of_nat (length bs) ->
  setBytes (new_DataView b) off bs h = inl RangeError.
Proof.
  intros Hb Hout. unfold setBytes. simpl dv_buffer. rewrite Hb.
  destruct (0 <=? off) eqn:E1; [|reflexivity].
  destruct (off + Z.of_nat (length bs) <=? Z.of_nat (length bytes)) eqn:E2;
    [|reflexivity].
  apply Z.leb_le in E1, E2. lia.
Qed.

(** [writeString] on any buffer, from index [i] on: the string is laid over
    the bytes when it fits. *)
Lemma writeString_from_run (h : heap) b offset s : forall i bytes,
  h !! b = Some (ArrayBuffer bytes) ->
  0 <= offset + i ->
  offset + i + Z.of_nat (String.length s) <= Z.of_nat (length bytes) ->
  writeString_from (new_DataView b) offset s i h
  = inr (tt, <[b := ArrayBuffer (splice (Z.to_nat (offset + i)) (codes s) bytes)]> h).
Proof.
  revert h. induction s as [|c s IH]; intros h i bytes Hb H0 Hfit.
  - cbn [writeString_from]. unfold ret, codes. simpl map.
    now rewrite splice_nil, insert_id.
  - cbn [writeString_from String.length] in *.
    erewrite bind_run.
    2:{ unfold setUint8. apply setBytes_run; [exact Hb|exact H0|].
        rewrite rawBytes_length. lia. }
    cbn [rawBytes].
    rewrite ToUint8_charCode, (Z.mod_small _ 256) by apply charCode_range.
    erewrite IH.
    2:{ apply lookup_insert_eq. }
    2:{ lia. }
    2:{ rewrite splice_length by (simpl length; lia). lia. }
    rewrite insert_insert_eq. do 3 f_equal.
    replace (Z.to_nat (offset + (i + 1)))
      with (Z.to_nat (offset + i) + length [charCode c])%nat
      by (simpl length; lia).
    rewrite splice_splice by (simpl length; rewrite codes_length; lia).
    reflexivity.
Qed.

Lemma writeString_from_RangeError (h : heap) b offset s : forall i bytes,
  h !! b = Some (ArrayBuffer bytes) ->
  s <> EmptyString ->
  offset + i < 0
  \/ Z.of_nat (length bytes) < offset + i + Z.of_nat (String.length s) ->
  writeString_from (new_DataView b) offset s i h = inl RangeError.
Proof.
  revert h. induction s as [|c s IH]; intros h i bytes Hb Hne Hout;
    [contradiction|].
  cbn [writeString_from String.length] in *.
  destruct (Z_lt_le_dec (offset + i) 0) as [Hneg|Hpos].
  { apply bind_throw. unfold setUint8.
    eapply setBytes_RangeError; [exact Hb|now left]. }
  destruct (Z_lt_le_dec (offset + i) (Z.of_nat (length bytes))) as [Hin|Hover].
  - erewrite bind_run.
    2:{ unfold setUint8. apply setBytes_run; [exact Hb|exact Hpos|].
        rewrite rawBytes_length. lia. }
    destruct s as [|c' s]; [simpl String.length in Hout; lia|].
    eapply IH; [apply lookup_insert_eq|discriminate|].
    right. rewrite splice_length by (rewrite rawBytes_length; lia). lia.
  - apply bind_throw. unfold setUint8.
    eapply setBytes_RangeError; [exact Hb|].
    right. rewrite rawBytes_length. lia.
Qed.

(** X1. [writeString] lays the character codes of the string over the
    bytes [offset .. offset + length - 1] of the buffer of the view and
    changes nothing else: the buffer keeps its length, the bytes outside
    that range and every other object of the store. *)
Theorem writeString_writes (h : heap) b bytes offset s :
  h !! b = Some (ArrayBuffer bytes) ->
  0 <= offset ->
  offset + Z.of_nat (String.length s) <= Z.of_nat (length bytes) ->
  exists bytes',
    writeString (new_DataView b) offset s h
    = inr (tt, <[b := ArrayBuffer bytes']> h) /\
    length bytes' = length bytes /\
    (forall (i : nat) c, codes s !! i = Some c ->
                         bytes' !! (Z.to_nat offset + i)%nat = Some c) /\
    (forall j : nat,
        (j < Z.to_nat offset \/ Z.to_nat offset + String.length s <= j)%nat ->
        bytes' !! j = bytes !! j).
Proof.
  intros Hb H0 Hfit. eexists. split; [|split; [|split]].
  - unfold writeString. apply (writeString_from_run h b offset s 0 bytes Hb); lia.
  - rewrite Z.add_0_r. apply splice_length. rewrite codes_length. lia.
  - intros i c Hi. rewrite Z.add_0_r.
    rewrite splice_lookup_in; [exact Hi|lia|].
    now apply lookup_lt_Some in Hi.
  - intros j Hj. rewrite Z.add_0_r.
    apply splice_lookup_out; rewrite codes_length; lia.
Qed.

Lemma writeString_writes_witness :
  viewHeap !! 1%positive = Some (ArrayBuffer [0; 0; 255; 127; 0; 128; 232; 3]) /\
  exists bytes',
    writeString (new_DataView 1%positive) 2 "data" viewHeap
    = inr (tt, <[1%positive := ArrayBuffer bytes']> viewHeap) /\
    bytes' !! 2%nat = Some 100 /\ bytes' !! 5%nat = Some 97 /\
    bytes' !! 1%nat = Some 0 /\ bytes' !! 6%nat = Some 232.
Proof.
  split; [reflexivity|].
  destruct (writeString_writes viewHeap 1%positive
              [0; 0; 255; 127; 0; 128; 232; 3] 2 "data" eq_refl)
    as (bytes' & Hrun & _ & Hin & Hout); [discriminate|discriminate|].
  exists bytes'. split; [exact Hrun|].
  split; [exact (Hin 0%nat 100 eq_refl)|].
  split; [exact (Hin 3%nat 97 eq_refl)|].
  split.
  - rewrite (Hout 1%nat); [reflexivity|left; simpl; lia].
  - rewrite (Hout 6%nat); [reflexivity|right; simpl; lia].
Defined.

(** X2. [writeString] raises a [RangeError] exactly when the string is
    not empty and does not lie within the buffer of the view (a negative
    offset, or an end beyond the last byte); an empty string is accepted at
    any offset. *)
Theorem writeString_RangeError (h : heap) b bytes offset s :
  h !! b = Some (ArrayBuffer bytes) ->
  (writeString (new_DataView b) offset s h = inl RangeError
   <-> s <> EmptyString /\
       (offset < 0
        \/ Z.of_nat (length bytes) < offset + Z.of_nat (String.length s))) /\
  (writeString (new_DataView b) offset EmptyString h = inr (tt, h)).
Proof.
  intros Hb. split; [|reflexivity]. split.
  - intros Herr. destruct s as [|c s]; [discriminate|].
    split; [discriminate|].
    destruct (Z_lt_le_dec offset 0) as [|H0]; [now left|right].
    destruct (Z_lt_le_dec (Z.of_nat (length bytes))
                (offset + Z.of_nat (String.length (String c s)))) as [|Hfit];
      [assumption|].
    unfold writeString in Herr.
    rewrite (writeString_from_run h b offset (String c s) 0 bytes Hb) in Herr
      by lia.
    discriminate.
  - intros [Hne Hout]. unfold writeString.
    apply (writeString_from_RangeError h b offset s 0 bytes Hb Hne). lia.
Qed.

Lemma writeString_RangeError_witness :
  viewHeap !! 1%positive = Some (ArrayBuffer [0; 0; 255; 127; 0; 128; 232; 3]) /\
  writeString (new_DataView 1%positive) 5 "data" viewHeap = inl RangeError /\
  writeString (new_DataView 1%positive) (-1) "d" viewHeap = inl RangeError /\
  writeString (new_DataView 1%positive) 99 "" viewHeap = inr (tt, viewHeap).
Proof.
  split; [reflexivity|].
  pose proof (writeString_RangeError viewHeap 1%positive
                [0; 0; 255; 127; 0; 128; 232; 3]) as H.
  split; [|split].
  - apply (proj1 (H 5 "data"%string eq_refl)).
    split; [discriminate|right; reflexivity].
  - apply (proj1 (H (-1) "d"%string eq_refl)).
    split; [discriminate|left; reflexivity].
  - exact (proj2 (H 99 EmptyString eq_refl)).
Defined.

(** X3. In the output of the encoder the sample data (the bytes after the
    header) depend on the samples alone, not on the sample rate, and the
    data of a concatenation are the data of its parts, one after the other;
    the header depends on the number of samples and on the rate alone. *)
Theorem pcmToWav_data_concat (h1 h2 h12 : heap) p1 p2 p12 s1 s2 r1 r2 r12 :
  elements h1 p1 = Some s1 ->
  elements h2 p2 = Some s2 ->
  elements h12 p12 = Some (s1 ++ s2) ->
  exists b1 b2 b12 h1' h2' h12',
    pcmToWav p1 r1 h1 = inr (b1, h1') /\
    pcmToWav p2 r2 h2 = inr (b2, h2') /\
    pcmToWav p12 r12 h12 = inr (b12, h12') /\
    drop 44 (blob_bytes b12)
    = drop 44 (blob_bytes b1) ++ drop 44 (blob_bytes b2) /\
    (length s1 = length s2 -> r1 = r2 ->
     take 44 (blob_bytes b1) = take 44 (blob_bytes b2)).
Proof.
  intros H1 H2 H12. eexists _, _, _, _, _, _.
  split; [apply pcmToWav_run; exact H1|].
  split; [apply pcmToWav_run; exact H2|].
  split; [apply pcmToWav_run; exact H12|].
  cbn [blob_bytes]. unfold wavBytes.
  rewrite !drop_app_length' by (symmetry; apply wavHeader_length).
  rewrite !take_app_length' by (symmetry; apply wavHeader_length).
  split; [apply flat_map_app|].
  intros -> ->. reflexivity.
Qed.

Lemma pcmToWav_data_concat_witness :
  elements scenarioHeap 1%positive = Some scenarioSamples /\
  elements wideHeap 1%positive = Some wideSamples /\
  elements (<[2%positive := NumberArray (scenarioSamples ++ wideSamples)]> wideHeap)
           2%positive = Some (scenarioSamples ++ wideSamples) /\
  exists b1 b2 b12 h1' h2' h12',
    pcmToWav 1%positive 24000 scenarioHeap = inr (b1, h1') /\
    pcmToWav 1%positive 16000 wideHeap = inr (b2, h2') /\
    pcmToWav 2%positive 8000
      (<[2%positive := NumberArray (scenarioSamples ++ wideSamples)]> wideHeap)
    = inr (b12, h12') /\
    drop 44 (blob_bytes b12)
    = drop 44 (blob_bytes b1) ++ drop 44 (blob_bytes b2).
Proof.
  split; [reflexivity|]. split; [reflexivity|]. split; [reflexivity|].
  destruct (pcmToWav_data_concat scenarioHeap wideHeap
              (<[2%positive := NumberArray (scenarioSamples ++ wideSamples)]> wideHeap)
              1%positive 1%positive 2%positive scenarioSamples wideSamples
              24000 16000 8000)
    as (b1 & b2 & b12 & h1' & h2' & h12' & R1 & R2 & R12 & Hdata & _);
    [reflexivity|reflexivity|reflexivity|].
  exists b1, b2, b12, h1', h2', h12'. repeat split; assumption.
Defined.

Lemma rawBytes_range n : forall v, Forall isByte (rawBytes n v).
Proof.
  induction n as [|n IH]; intros v; cbn [rawBytes]; constructor;
    [apply Z.mod_pos_bound; lia|apply IH].
Qed.

(** X4. Every element of the output of the encoder is a byte (in
    [0, 256)), whatever integers the samples and the sample rate are. *)
Theorem pcmToWav_bytes (h : heap) pcmData samples sampleRate :
  elements h pcmData = Some samples ->
  exists blob h',
    pcmToWav pcmData sampleRate h = inr (blob, h') /\
    Forall isByte (blob_bytes blob).
Proof.
  intros Hp. eexists _, _. split; [apply pcmToWav_run; exact Hp|].
  cbn [blob_bytes]. unfold wavBytes, wavHeader.
  repeat (apply Forall_app; split);
    try apply rawBytes_range; try apply codes_range.
  clear Hp. induction samples as [|v samples IH]; [constructor|].
  cbn [flat_map]. apply Forall_app. split; [apply rawBytes_range|apply IH].
Qed.

Lemma pcmToWav_bytes_witness :
  elements wideHeap 1%positive = Some wideSamples /\
  exists blob h',
    pcmToWav 1%positive (-1) wideHeap = inr (blob, h') /\
    Forall isByte (blob_bytes blob).
Proof.
  split; [reflexivity|].
  apply (pcmToWav_bytes wideHeap 1%positive wideSamples (-1)). reflexivity.
Defined.

Local Open Scope string_scope.

Lemma startsWith_prefix s p : startsWith s p = true <-> exists r, s = p ++ r.
Proof.
  unfold startsWith. split.
  - destruct (stripPrefix p s) as [r|] eqn:E; [|discriminate].
    intros _. exists r. now apply stripPrefix_Some.
  - intros [r ->]. now rewrite stripPrefix_app.
Qed.

Lemma truthy_nonempty s : truthy s = true <-> s <> "".
Proof. destruct s; simpl; split; congruence. Qed.

(** The guard of the conversion, in words. *)
Lemma guard_true audioData mimeType :
  truthy audioData && truthy mimeType && startsWith mimeType "audio/L16" = true
  <-> audioData <> "" /\ exists r, mimeType = "audio/L16" ++ r.
Proof.
  rewrite !andb_true_iff, !truthy_nonempty, startsWith_prefix. split.
  - intros [[Ha _] Hm]. now split.
  - intros [Ha [r ->]]. repeat split; [exact Ha|discriminate|now exists r].
Qed.

Local Close Scope string_scope.

Lemma insert_fresh_frame (h : heap) x l o :
  h !! l = Some o -> <[fresh (dom h) := x]> h !! l = Some o.
Proof.
  intros Hl. rewrite lookup_insert_ne; [exact Hl|].
  intros E. rewrite <- E, fresh_loc_None in Hl. discriminate.
Qed.

(** [base64ToArrayBuffer] returns a new buffer that holds the character
    codes of the decoded string, and keeps the objects of the store. *)
Lemma base64ToArrayBuffer_frame (atob : string -> exn + string) (h : heap)
    base64 binaryString :
  atob base64 = inr binaryString ->
  exists buffer h',
    base64ToArrayBuffer atob base64 h = inr (buffer, h') /\
    h' !! buffer = Some (ArrayBuffer (codes binaryString)) /\
    h !! buffer = None /\
    (forall l o, h !! l = Some o -> h' !! l = Some o).
Proof.
  intros Hatob. unfold base64ToArrayBuffer. rewrite Hatob.
  erewrite bind_run by (apply new_Uint8Array_run; lia).
  set (b := fresh (dom h)).
  set (h1 := <[b := ArrayBuffer _]> h).
  set (a := fresh (dom h1)).
  assert (h1 !! a = None) as Ha by apply fresh_loc_None.
  assert (a <> b) as Hab.
  { intros E. rewrite E in Ha. unfold h1 in Ha.
    rewrite lookup_insert_eq in Ha. discriminate. }
  unfold h1. rewrite insert_insert_ne by exact Hab.
  rewrite Nat2Z.id.
  erewrite bind_run.
  2:{ apply (fillBytes_run _ a b binaryString [] 0%nat Hab);
        [apply lookup_insert_eq|reflexivity]. }
  unfold get_buffer.
  rewrite lookup_insert_ne, lookup_insert_eq by congruence.
  eexists _, _. split; [reflexivity|].
  split; [apply lookup_insert_eq|]. split; [apply fresh_loc_None|].
  intros l o Hl.
  assert (l <> b) as Hlb
    by (intros ->; unfold b in Hl; rewrite fresh_loc_None in Hl; discriminate).
  assert (l <> a) as Hla.
  { intros ->. unfold h1 in Ha. rewrite lookup_insert_ne in Ha by congruence.
    congruence. }
  rewrite !lookup_insert_ne by congruence. exact Hl.
Qed.

(** The conversion on a decodable input with an even number of bytes. *)
Lemma handleTtsClick_even (atob : string -> exn + string)
    (audioData mimeType binaryString : string) (h : heap) :
  truthy audioData && truthy mimeType && startsWith mimeType "audio/L16" = true ->
  atob audioData = inr binaryString ->
  Nat.even (String.length binaryString) = true ->
  exists blob h',
    handleTtsClick atob audioData mimeType h = inr (Some blob, h') /\
    (forall l o, h !! l = Some o -> h' !! l = Some o).
Proof.
  intros Hguard Hatob Heven. unfold handleTtsClick. rewrite Hguard.
  destruct (base64ToArrayBuffer_frame atob h audioData binaryString Hatob)
    as (buffer & h1 & Hrun & Hbuf & _ & Hframe).
  rewrite (bind_run _ _ _ _ _ Hrun).
  rewrite <- (codes_length binaryString) in Heven.
  destruct (new_Int16Array_even h1 buffer _ Hbuf Heven) as [Hview Helems].
  rewrite (bind_run _ _ _ _ _ Hview).
  rewrite (bind_run _ _ _ _ _
             (pcmToWav_run _ _ _ (sampleRateOf mimeType) Helems)).
  eexists _, _. split; [reflexivity|].
  intros l o Hl. now apply insert_fresh_frame, insert_fresh_frame, Hframe.
Qed.

Lemma handleTtsClick_odd (atob : string -> exn + string)
    (audioData mimeType binaryString : string) (h : heap) :
  truthy audioData && truthy mimeType && startsWith mimeType "audio/L16" = true ->
  atob audioData = inr binaryString ->
  Nat.even (String.length binaryString) = false ->
  handleTtsClick atob audioData mimeType h = inl RangeError.
Proof.
  intros Hguard Hatob Hodd. unfold handleTtsClick. rewrite Hguard.
  destruct (base64ToArrayBuffer_frame atob h audioData binaryString Hatob)
    as (buffer & h1 & Hrun & Hbuf & _).
  rewrite (bind_run _ _ _ _ _ Hrun).
  apply bind_throw. eapply new_Int16Array_odd; [exact Hbuf|].
  now rewrite codes_length, <- Nat.negb_even, Hodd.
Qed.

Lemma handleTtsClick_throws (atob : string -> exn + string)
    (audioData mimeType : string) (h : heap) e :
  truthy audioData && truthy mimeType && startsWith mimeType "audio/L16" = true ->
  atob audioData = inl e ->
  handleTtsClick atob audioData mimeType h = inl e.
Proof.
  intros Hguard Hatob. unfold handleTtsClick. rewrite Hguard.
  apply bind_throw. unfold base64ToArrayBuffer. now rewrite Hatob.
Qed.

(** X5. The conversion of [handleTtsClick] hands a blob to the player
    exactly when the audio data are not empty, the MIME type starts with
    [audio/L16], [atob] decodes the data, and the decoded bytes are even in
    number. *)
Theorem handleTtsClick_blob_iff (atob : string -> exn + string)
    (audioData mimeType : string) (h : heap) :
  (exists blob h', handleTtsClick atob audioData mimeType h = inr (Some blob, h'))
  <-> audioData <> EmptyString /\
      (exists r, mimeType = ("audio/L16" ++ r)%string) /\
      exists binaryString,
        atob audioData = inr binaryString /\
        Nat.even (String.length binaryString) = true.
Proof.
  split.
  - intros (blob & h' & Hrun).
    destruct (truthy audioData && truthy mimeType
              && startsWith mimeType "audio/L16") eqn:Hguard.
    + pose proof (proj1 (guard_true audioData mimeType) Hguard) as [Ha Hm].
      split; [exact Ha|]. split; [exact Hm|].
      destruct (atob audioData) as [e|binaryString] eqn:Hatob.
      * rewrite (handleTtsClick_throws _ _ _ _ _ Hguard Hatob) in Hrun.
        discriminate.
      * exists binaryString. split; [reflexivity|].
        destruct (Nat.even (String.length binaryString)) eqn:Heven;
          [reflexivity|].
        rewrite (handleTtsClick_odd _ _ _ _ _ Hguard Hatob Heven) in Hrun.
        discriminate.
    + unfold handleTtsClick in Hrun. rewrite Hguard in Hrun. discriminate.
  - intros (Ha & Hm & binaryString & Hatob & Heven).
    pose proof (proj2 (guard_true audioData mimeType) (conj Ha Hm)) as Hguard.
    destruct (handleTtsClick_even atob audioData mimeType binaryString h
                Hguard Hatob Heven) as (blob & h' & Hrun & _).
    now exists blob, h'.
Qed.

(** X6. When the conversion does not reach the encoder: an empty audio
    string or a MIME type that does not start with [audio/L16] gives no
    blob and leaves the store as it is, whatever [atob] would do; an
    exception of [atob] (malformed base64) leaves [base64ToArrayBuffer] and
    the conversion as it is. *)
Theorem handleTtsClick_no_blob (atob : string -> exn + string)
    (audioData mimeType : string) (h : heap) :
  (audioData = EmptyString
   \/ (forall r, mimeType <> ("audio/L16" ++ r)%string) ->
   handleTtsClick atob audioData mimeType h = inr (None, h)) /\
  (forall e,
      atob audioData = inl e ->
      base64ToArrayBuffer atob audioData h = inl e /\
      (audioData <> EmptyString ->
       (exists r, mimeType = ("audio/L16" ++ r)%string) ->
       handleTtsClick atob audioData mimeType h = inl e)).
Proof.
  split.
  - intros Hno. unfold handleTtsClick.
    destruct (truthy audioData && truthy mimeType
              && startsWith mimeType "audio/L16") eqn:Hguard; [|reflexivity].
    apply guard_true in Hguard as [Ha [r Hm]].
    destruct Hno as [Hempty|Hpre]; [contradiction|destruct (Hpre r Hm)].
  - intros e Hatob. split.
    + unfold base64ToArrayBuffer. now rewrite Hatob.
    + intros Ha Hm. apply handleTtsClick_throws; [|exact Hatob].
      apply guard_true. now split.
Qed.

Lemma handleTtsClick_no_blob_witness :
  handleTtsClick atob "AAD/fwCA6AM=" "audio/mpeg" ∅ = inr (None, ∅) /\
  atob "A*D/" = inl InvalidCharacterError /\
  handleTtsClick atob "A*D/" "audio/L16;rate=24000" ∅
  = inl InvalidCharacterError.
Proof.
  split; [|split; [reflexivity|]].
  - apply (proj1 (handleTtsClick_no_blob atob "AAD/fwCA6AM=" "audio/mpeg" ∅)).
    right. intros r E. discriminate E.
  - apply (proj2 (handleTtsClick_no_blob atob "A*D/" "audio/L16;rate=24000" ∅)
             InvalidCharacterError eq_refl).
    + discriminate.
    + now exists ";rate=24000"%string.
Defined.

(** X7. A conversion that returns keeps every object that the store held
    before: the decoded buffer, the sample view and the output buffer are
    new objects. *)
Theorem handleTtsClick_frame (atob : string -> exn + string)
    (audioData mimeType : string) (h h' : heap) result :
  handleTtsClick atob audioData mimeType h = inr (result, h') ->
  forall l o, h !! l = Some o -> h' !! l = Some o.
Proof.
  intros Hrun.
  destruct (truthy audioData && truthy mimeType
            && startsWith mimeType "audio/L16") eqn:Hguard.
  - destruct (atob audioData) as [e|binaryString] eqn:Hatob.
    { rewrite (handleTtsClick_throws _ _ _ _ _ Hguard Hatob) in Hrun.
      discriminate. }
    destruct (Nat.even (String.length binaryString)) eqn:Heven.
    + destruct (handleTtsClick_even atob audioData mimeType binaryString h
                  Hguard Hatob Heven) as (blob & h1 & Hrun' & Hframe).
      rewrite Hrun' in Hrun. injection Hrun as _ <-. exact Hframe.
    + rewrite (handleTtsClick_odd _ _ _ _ _ Hguard Hatob Heven) in Hrun.
      discriminate.
  - unfold handleTtsClick in Hrun. rewrite Hguard in Hrun.
    injection Hrun as _ <-. auto.
Qed.

Lemma handleTtsClick_frame_witness :
  exists blob h',
    handleTtsClick atob "AAD/fwCA6AM=" "audio/L16;rate=24000" scenarioHeap
    = inr (Some blob, h') /\
    h' !! 1%positive = Some (NumberArray scenarioSamples).
Proof.
  destruct (handleTtsClick_even atob "AAD/fwCA6AM=" "audio/L16;rate=24000"
              _ scenarioHeap eq_refl eq_refl eq_refl)
    as (blob & h' & Hrun & _).
  exists blob, h'. split; [exact Hrun|].
  exact (handleTtsClick_frame atob _ _ scenarioHeap h' (Some blob) Hrun
           1%positive _ eq_refl).
Defined.

(** * Further properties of the sample rate *)

Local Open Scope string_scope.

Lemma digitsPrefix_split s :
  exists rest,
    s = digitsPrefix s ++ rest /\
    allDigits (digitsPrefix s) = true /\ noLeadingDigit rest.
Proof.
  induction s as [|c s (rest & Hs & Hds & Hrest)].
  - exists "". now repeat split.
  - cbn [digitsPrefix]. destruct (isDigit c) eqn:Hc.
    + exists rest. cbn [allDigits append]. rewrite Hc, Hds, <- Hs.
      now repeat split.
    + exists (String c s). now repeat split.
Qed.

Lemma matchRateHere_sound s m :
  matchRateHere s = Some m ->
  exists rest,
    s = "rate=" ++ group1 m ++ rest /\
    group0 m = "rate=" ++ group1 m /\
    group1 m <> "" /\ allDigits (group1 m) = true /\ noLeadingDigit rest.
Proof.
  unfold matchRateHere.
  destruct (stripPrefix "rate=" s) as [r|] eqn:E; [|discriminate].
  apply stripPrefix_Some in E as ->.
  destruct (digitsPrefix_split r) as (rest & Hr & Hds & Hrest).
  destruct (digitsPrefix r) as [|c ds] eqn:Hd; [discriminate|].
  intros [= <-]. cbn [group0 group1]. exists rest.
  repeat split; try assumption; [now rewrite Hr at 1|discriminate].
Qed.

(** X8. When the pattern [rate=(\d+)] matches, the match is an occurrence
    in the MIME type: the matched text is [rate=] and the capture, the
    capture is a run of digits that is not empty (so [parseInt] has digits
    to read) and that no digit follows, and no [rate=] with a digit occurs
    further to the left. *)
Theorem matchRate_sound s m :
  matchRate s = Some m ->
  exists pre rest,
    s = pre ++ group0 m ++ rest /\
    group0 m = "rate=" ++ group1 m /\
    group1 m <> "" /\ allDigits (group1 m) = true /\ noLeadingDigit rest /\
    (forall pre', rateAt pre' s ->
                  (String.length pre <= String.length pre')%nat).
Proof.
  revert m. induction s as [|c s IH]; intros m Hm.
  - discriminate.
  - cbn [matchRate] in Hm.
    destruct (matchRateHere (String c s)) as [m'|] eqn:Hhere.
    + injection Hm as ->.
      destruct (matchRateHere_sound _ _ Hhere)
        as (rest & Hs & Hg0 & Hne & Hds & Hrest).
      exists "", rest. rewrite Hg0.
      split; [|split; [reflexivity|split; [exact Hne|split; [exact Hds|
               split; [exact Hrest|]]]]].
      * rewrite Hs at 1. clear. generalize (group1 m). intros g.
        change ("" ++ ("rate=" ++ g) ++ rest) with (("rate=" ++ g) ++ rest).
        reflexivity.
      * intros pre' _. simpl. lia.
    + destruct (IH m Hm) as (pre & rest & Hs & Hg0 & Hne & Hds & Hrest & Hleft).
      exists (String c pre), rest.
      split; [|split; [exact Hg0|split; [exact Hne|split; [exact Hds|
               split; [exact Hrest|]]]]].
      * cbn [append]. now rewrite <- Hs.
      * intros pre' Hat. destruct pre' as [|c' pre'].
        -- apply rateAt_matchRateHere in Hat. contradiction.
        -- apply rateAt_cons in Hat as [_ Hat]. simpl.
           apply le_n_S, Hleft, Hat.
Qed.

Lemma matchRate_sound_witness :
  matchRate "audio/L16;codec=pcm;rate=16000;x"
  = Some {| group0 := "rate=16000"; group1 := "16000" |} /\
  exists pre rest,
    "audio/L16;codec=pcm;rate=16000;x" = pre ++ "rate=16000" ++ rest /\
    noLeadingDigit rest.
Proof.
  split; [reflexivity|].
  destruct (matchRate_sound "audio/L16;codec=pcm;rate=16000;x"
              {| group0 := "rate=16000"; group1 := "16000" |} eq_refl)
    as (pre & rest & Hs & _ & _ & _ & Hrest & _).
  now exists pre, rest.
Defined.

Lemma parseInt10_nonneg s : (0 <= integerOf (parseInt10 s))%Z.
Proof.
  unfold parseInt10. apply toDouble_nonneg.
  destruct (digitsPrefix_split s) as (_ & _ & Hds & _).
  revert Hds. generalize (digitsPrefix s). intros ds Hds.
  assert (forall acc, (0 <= acc)%Z ->
            (0 <= fold_left (fun a c => 10 * a + digitValue c)
                            (list_ascii_of_string ds) acc)%Z) as H.
  { induction ds as [|c ds IH]; intros acc Hacc; [exact Hacc|].
    cbn [list_ascii_of_string fold_left]. cbn [allDigits] in Hds.
    apply andb_prop in Hds as [Hc Hds]. apply IH; [exact Hds|].
    unfold isDigit in Hc. apply andb_prop in Hc as [Hlo _].
    apply Z.leb_le in Hlo. unfold digitValue. lia. }
  apply H. lia.
Qed.

(** X9. The sample rate that the conversion hands to the encoder is never
    negative, whatever the MIME type is: a sign is no part of the
    pattern. *)
Theorem sampleRateOf_nonneg (mimeType : string) : (0 <= sampleRateOf mimeType)%Z.
Proof.
  unfold sampleRateOf, sampleRateNumber.
  destruct (matchRate mimeType); [|cbn [integerOf]; lia].
  apply parseInt10_nonneg.
Qed.

Local Close Scope string_scope.

(** * The nickname and the prompt *)

Local Open Scope string_scope.

Lemma trimStart_split s :
  exists ws, s = ws ++ trimStart s /\ allWhiteSpace ws = true.
Proof.
  induction s as [|c s (ws & Hs & Hws)].
  - now exists "".
  - cbn [trimStart]. destruct (isWhiteSpace c) eqn:Hc.
    + exists (String c ws). cbn [append allWhiteSpace].
      now rewrite Hc, Hws, <- Hs.
    + now exists "".
Qed.

Lemma trimStart_first s c :
  firstChar (trimStart s) = Some c -> isWhiteSpace c = false.
Proof.
  induction s as [|c' s IH]; [discriminate|].
  cbn [trimStart]. destruct (isWhiteSpace c') eqn:Hc; [exact IH|].
  now intros [= <-].
Qed.

Lemma trimEnd_split s :
  exists ws, s = trimEnd s ++ ws /\ allWhiteSpace ws = true.
Proof.
  induction s as [|c s (ws & Hs & Hws)].
  - now exists "".
  - cbn [trimEnd]. destruct (trimEnd s) as [|k ks] eqn:Hk.
    + cbn [append] in Hs. subst ws.
      destruct (isWhiteSpace c) eqn:Hc.
      * exists (String c s). cbn [append allWhiteSpace]. now rewrite Hc, Hws.
      * now exists s.
    + exists ws. cbn [append] in *. now rewrite <- Hs.
Qed.

Lemma trimEnd_last s c :
  lastChar (trimEnd s) = Some c -> isWhiteSpace c = false.
Proof.
  induction s as [|c' s IH]; [discriminate|].
  cbn [trimEnd]. destruct (trimEnd s) as [|k ks] eqn:Hk.
  - destruct (isWhiteSpace c') eqn:Hc; [discriminate|]. now intros [= <-].
  - exact IH.
Qed.

Lemma trimEnd_first s :
  trimEnd s <> "" -> firstChar (trimEnd s) = firstChar s.
Proof.
  destruct s as [|c s]; [reflexivity|]. cbn [trimEnd].
  destruct (trimEnd s); [destruct (isWhiteSpace c)|]; easy.
Qed.

Lemma trim_bare s : bare (trim s).
Proof.
  unfold bare, trim. split; intros c Hc.
  - rewrite trimEnd_first in Hc by (intros E; rewrite E in Hc; discriminate).
    exact (trimStart_first _ _ Hc).
  - exact (trimEnd_last _ _ Hc).
Qed.

Lemma trim_split s :
  exists ws1 ws2,
    s = ws1 ++ trim s ++ ws2 /\
    allWhiteSpace ws1 = true /\ allWhiteSpace ws2 = true.
Proof.
  destruct (trimStart_split s) as (ws1 & Hs & H1).
  destruct (trimEnd_split (trimStart s)) as (ws2 & Ht & H2).
  exists ws1, ws2. unfold trim. now rewrite <- Ht, <- Hs.
Qed.

(** X10. [handleSetNickname] sets a nickname only of two characters or
    more, without white space at its ends, which is the text of the input
    with the white space at its two ends removed; with a shorter text it
    sets nothing and logs a message. When the authentication is ready it
    sets a nickname exactly when the Join button is enabled. *)
Theorem handleSetNickname_sets (st : AppState) :
  (forall n, In (SetNickname n) (fst (handleSetNickname st)) ->
     (2 <= String.length n)%nat /\ bare n /\
     exists ws1 ws2,
       tempNickname st = ws1 ++ n ++ ws2 /\
       allWhiteSpace ws1 = true /\ allWhiteSpace ws2 = true) /\
  ((String.length (trim (tempNickname st)) < 2)%nat ->
   handleSetNickname st
   = ([ConsoleLog "Nickname must be at least 2 characters."], Some tt)) /\
  (isAuthReady st = true ->
   (joinDisabled st = false
    <-> exists n, handleSetNickname st = ([SetNickname n], Some tt))).
Proof.
  unfold handleSetNickname, joinDisabled.
  destruct (2 <=? String.length (trim (tempNickname st)))%nat eqn:Hlen.
  - apply Nat.leb_le in Hlen. split; [|split].
    + intros n [[= <-]|[]]. split; [exact Hlen|]. split; [apply trim_bare|].
      apply trim_split.
    + lia.
    + intros ->. cbn [negb orb].
      split; [intros _; now eexists|intros _].
      apply Nat.ltb_ge. exact Hlen.
  - apply Nat.leb_gt in Hlen. split; [|split].
    + intros n [[=]|[]].
    + reflexivity.
    + intros ->. cbn [negb orb]. split.
      * intros H. apply Nat.ltb_ge in H. lia.
      * intros [n [=]].
Qed.

Lemma handleSetNickname_sets_witness :
  handleSetNickname
    {| newMessage := ""; userId := Some "u1"; nickname := None;
       tempNickname := "  Ada L  "; isAuthReady := true;
       isAiProcessing := false |}
  = ([SetNickname "Ada L"], Some tt) /\
  handleSetNickname
    {| newMessage := ""; userId := Some "u1"; nickname := None;
       tempNickname := "  A  "; isAuthReady := true;
       isAiProcessing := false |}
  = ([ConsoleLog "Nickname must be at least 2 characters."], Some tt).
Proof.
  split.
  - destruct (proj1 (proj2 (proj2 (handleSetNickname_sets
        {| newMessage := ""; userId := Some "u1"; nickname := None;
           tempNickname := "  Ada L  "; isAuthReady := true;
           isAiProcessing := false |})) eq_refl) eq_refl) as [n Hn].
    rewrite Hn. vm_compute in Hn. now injection Hn as <-.
  - apply (proj1 (proj2 (handleSetNickname_sets
        {| newMessage := ""; userId := Some "u1"; nickname := None;
           tempNickname := "  A  "; isAuthReady := true;
           isAiProcessing := false |}))).
    simpl. lia.
Defined.

Lemma lowerChar_space c : lowerChar c = " "%char -> c = " "%char.
Proof.
  destruct c as [[] [] [] [] [] [] [] []]; vm_compute; intros H;
    first [reflexivity|discriminate H].
Qed.

Lemma lastChar_app a b : b <> "" -> lastChar (a ++ b) = lastChar b.
Proof.
  intros Hb. induction a as [|c a IH]; [reflexivity|].
  cbn [append lastChar]. destruct (a ++ b) eqn:E; [|exact IH].
  destruct a; [|discriminate]. now destruct b.
Qed.

(** What [userPromptOf] does to a message that starts, in any case of
    letters, with [@gemini ]. *)
Lemma userPromptOf_prefix t :
  startsWith (toLowerCase t) "@gemini " = true ->
  exists pre,
    t = pre ++ substringFrom 8 t /\
    String.length pre = 8%nat /\ toLowerCase pre = "@gemini " /\
    lastChar pre = Some " "%char.
Proof.
  intros H. apply startsWith_prefix in H as [r H].
  do 8 (destruct t as [|? t]; [discriminate H|]).
  cbn [toLowerCase append] in H.
  injection H as H1 H2 H3 H4 H5 H6 H7 H8 _.
  eexists (String _ (String _ (String _ (String _ (String _ (String _
            (String _ (String _ "")))))))).
  split; [reflexivity|]. split; [reflexivity|].
  cbn [toLowerCase]. rewrite H1, H2, H3, H4, H5, H6, H7, H8.
  split; [reflexivity|]. cbn [lastChar].
  now rewrite (lowerChar_space _ H8).
Qed.

Lemma toLowerCase_app a b :
  toLowerCase (a ++ b) = toLowerCase a ++ toLowerCase b.
Proof. induction a as [|c a IH]; [reflexivity|]. cbn. now rewrite IH. Qed.

Lemma toLowerCase_length a : String.length (toLowerCase a) = String.length a.
Proof. induction a as [|c a IH]; [reflexivity|]. cbn. now rewrite IH. Qed.

Lemma substringFrom_app a b : substringFrom (String.length a) (a ++ b) = b.
Proof. induction a as [|c a IH]; [now destruct b|exact IH]. Qed.

(** X11. When the first eight characters of the trimmed message are
    [@gemini ], in any case of letters, the prompt is the rest of the
    trimmed message; otherwise it is the trimmed message. It is never empty
    when the trimmed message is not, and it does not end with white
    space. *)
Theorem userPromptOf_trimmed (message : string) :
  (forall pre rest,
      trim message = pre ++ rest -> toLowerCase pre = "@gemini " ->
      userPromptOf (trim message) = rest) /\
  ((forall pre rest,
       trim message = pre ++ rest -> toLowerCase pre <> "@gemini ") ->
   userPromptOf (trim message) = trim message) /\
  (trim message <> "" -> userPromptOf (trim message) <> "") /\
  (forall c, lastChar (userPromptOf (trim message)) = Some c ->
             isWhiteSpace c = false).
Proof.
  pose proof (trim_bare message) as [_ Hlast].
  split; [|split].
  - intros pre rest Ht Hlow. unfold userPromptOf. rewrite Ht.
    rewrite toLowerCase_app, Hlow,
      (proj2 (startsWith_prefix _ _) (ex_intro _ (toLowerCase rest) eq_refl)).
    assert (String.length pre = 8%nat) as Hlen
      by (rewrite <- toLowerCase_length, Hlow; reflexivity).
    rewrite <- Hlen. apply substringFrom_app.
  - intros Hno. unfold userPromptOf.
    destruct (startsWith (toLowerCase (trim message)) "@gemini ") eqn:Hpre;
      [|reflexivity].
    destruct (userPromptOf_prefix _ Hpre) as (pre & Ht & _ & Hlow & _).
    destruct (Hno pre _ Ht Hlow).
  - unfold userPromptOf.
    destruct (startsWith (toLowerCase (trim message)) "@gemini ") eqn:Hpre.
    + destruct (userPromptOf_prefix _ Hpre) as (pre & Ht & Hlen & Hlow & Hsp).
      assert (substringFrom 8 (trim message) <> "") as Hne.
      { intros E. rewrite E in Ht.
        assert (pre ++ "" = pre) as Epre
          by (clear; induction pre; simpl; congruence).
        rewrite Epre in Ht. rewrite Ht in Hlast.
        specialize (Hlast _ Hsp). discriminate Hlast. }
      split; [intros _; exact Hne|].
      intros c Hc. apply Hlast. rewrite Ht. now rewrite lastChar_app.
    + split; [auto|exact Hlast].
Qed.

Lemma userPromptOf_trimmed_witness :
  trim "  @GeMiNi  what is PCM? " = "@GeMiNi " ++ " what is PCM?" /\
  userPromptOf (trim "  @GeMiNi  what is PCM? ") = " what is PCM?" /\
  userPromptOf (trim " gemini, hello ") = "gemini, hello".
Proof.
  split; [reflexivity|]. split.
  - exact (proj1 (userPromptOf_trimmed "  @GeMiNi  what is PCM? ")
             "@GeMiNi " " what is PCM?" eq_refl eq_refl).
  - apply (proj1 (proj2 (userPromptOf_trimmed " gemini, hello "))).
    intros pre rest Ht Hlow.
    assert (String.length pre = 8%nat) as Hlen
      by (rewrite <- toLowerCase_length, Hlow; reflexivity).
    do 8 (destruct pre as [|? pre]; [discriminate Hlen|]).
    destruct pre; [|discriminate Hlen].
    vm_compute in Ht. injection Ht as <- <- <- <- <- <- <- <- _.
    vm_compute in Hlow. discriminate Hlow.
Defined.

Local Close Scope string_scope.

(** * Sending a message *)

Local Open Scope string_scope.

Lemma truthy_eqb s : String.eqb s "" = negb (truthy s).
Proof. now destruct s. Qed.

(** The runs of [postMessageToChat], by configuration and by the answer of
    the store. *)
Lemma postMessageToChat_cases (env : Env) (st : AppState) text senderId :
  let doc := {| doc_text := text; doc_userId := senderId;
                doc_userNickname :=
                  if sameId senderId (userId st) then nickname st
                  else Some "Gemini (AI Assistant)" |} in
  match config env with
  | ConfigMissing => postMessageToChat env st text senderId = ([], Some tt)
  | ConfigBroken => postMessageToChat env st text senderId = ([], None)
  | ConfigReady =>
      postMessageToChat env st text senderId
      = (AddDoc (messagesPath env) doc
           :: (if addDoc_ok env doc then []
               else [ConsoleError "Error adding message:"]),
         Some tt)
  end.
Proof.
  cbv zeta. unfold postMessageToChat, addDoc.
  destruct (config env); try reflexivity.
  cbn. now destruct (addDoc_ok env _).
Qed.

(** The runs of [getGeminiResponse]: with a broken configuration both
    attempts to post throw; otherwise one document is posted. *)
Lemma getGeminiResponse_cases (env : Env) (st : AppState) prompt :
  let text :=
    match reply env with
    | Result (Some (String c s)) => String c s
    | Result _ => "Sorry, I couldn't generate a response at this time."
    | _ => "Error contacting AI service."
    end in
  let failed :=
    match reply env with
    | Result _ => []
    | _ => [ConsoleError "Error getting Gemini response:"]
    end in
  getGeminiResponse env st prompt
  = match config env with
    | ConfigBroken =>
        ([SetIsAiProcessing true; Fetch apiUrl prompt systemPrompt;
          ConsoleError "Error getting Gemini response:";
          SetIsAiProcessing false], None)
    | _ =>
        (SetIsAiProcessing true :: Fetch apiUrl prompt systemPrompt
           :: failed
           ++ fst (postMessageToChat env st text (Some "Gemini"))
           ++ [SetIsAiProcessing false],
         Some tt)
    end.
Proof.
  cbv zeta. unfold getGeminiResponse, fetchBotResponse, postMessageToChat, addDoc.
  destruct (config env), (reply env) as [| | |[[|c s]|]]; cbn;
    try reflexivity; now destruct (addDoc_ok env _).
Qed.

(** X12. [handleSendMessage] does nothing but [preventDefault] exactly when
    the trimmed message is empty, the user id or the nickname is missing or
    empty, or a reply of the AI is pending; for a signed-in user these are
    the cases in which the Send button is disabled. *)
Theorem handleSendMessage_idle (env : Env) (st : AppState) :
  (handleSendMessage env st = ([PreventDefault], Some tt)
   <-> trim (newMessage st) = ""
       \/ truthyOpt (userId st) = false
       \/ truthyOpt (nickname st) = false
       \/ isAiProcessing st = true) /\
  (isAuthReady st = true -> truthyOpt (userId st) = true ->
   (sendDisabled st = true
    <-> handleSendMessage env st = ([PreventDefault], Some tt))).
Proof.
  assert (handleSendMessage env st = ([PreventDefault], Some tt)
          <-> negb (truthy (trim (newMessage st)))
              || negb (truthyOpt (userId st))
              || negb (truthyOpt (nickname st)) || isAiProcessing st = true)
    as Hidle.
  { unfold handleSendMessage.
    destruct (negb (truthy (trim (newMessage st)))
              || negb (truthyOpt (userId st))
              || negb (truthyOpt (nickname st)) || isAiProcessing st);
      [now split|].
    split; [|discriminate]. intros H. exfalso. revert H.
    pose proof (postMessageToChat_cases env st (trim (newMessage st))
                  (userId st)) as Hpost.
    cbv zeta in Hpost.
    generalize (getGeminiResponse env st (userPromptOf (trim (newMessage st)))).
    intros [t' r'].
    destruct (config env); rewrite Hpost; cbn; discriminate. }
  split.
  - rewrite Hidle, !orb_true_iff, !negb_true_iff.
    destruct (trim (newMessage st)) eqn:E; cbn [truthy]; intuition congruence.
  - intros Hauth Huser. rewrite Hidle. unfold sendDisabled.
    rewrite Hauth, Huser, truthy_eqb. cbn [negb orb].
    destruct (truthy (trim (newMessage st))), (truthyOpt (nickname st)),
      (isAiProcessing st); cbn; tauto.
Qed.

Lemma handleSendMessage_idle_witness :
  handleSendMessage
    {| config := ConfigReady; app_id := None; addDoc_ok := fun _ => true;
       reply := Result (Some "Hi") |}
    {| newMessage := "   "; userId := Some "u1"; nickname := Some "Ada";
       tempNickname := ""; isAuthReady := true; isAiProcessing := false |}
  = ([PreventDefault], Some tt).
Proof.
  apply (proj1 (handleSendMessage_idle _ _)). left. reflexivity.
Defined.

(** X13. Whatever the request and the store answer, [getGeminiResponse]
    sets [isAiProcessing] to true once, at its start, and to false once, as
    its last act, also when an exception leaves it; so a run of
    [handleSendMessage] that has set it to true ends by setting it to
    false. *)
Theorem isAiProcessing_released (env : Env) (st : AppState) :
  (forall prompt,
      busyOf (fst (getGeminiResponse env st prompt)) = [true; false] /\
      exists mid,
        fst (getGeminiResponse env st prompt)
        = SetIsAiProcessing true :: mid ++ [SetIsAiProcessing false]) /\
  (busyOf (fst (handleSendMessage env st)) = []
   \/ busyOf (fst (handleSendMessage env st)) = [true; false] /\
      last (fst (handleSendMessage env st)) = Some (SetIsAiProcessing false)).
Proof.
  assert (forall text sender,
             busyOf (fst (postMessageToChat env st text sender)) = []) as Hpost.
  { intros text sender.
    pose proof (postMessageToChat_cases env st text sender) as H.
    cbv zeta in H. destruct (config env); rewrite H; cbn;
      try reflexivity. now destruct (addDoc_ok env _). }
  assert (forall prompt,
             busyOf (fst (getGeminiResponse env st prompt)) = [true; false] /\
             exists mid,
               fst (getGeminiResponse env st prompt)
               = SetIsAiProcessing true :: mid ++ [SetIsAiProcessing false])
    as Hbusy.
  { intros prompt.
    pose proof (getGeminiResponse_cases env st prompt) as Hai.
    cbv zeta in Hai. rewrite Hai. clear Hai.
    destruct (config env) eqn:Hcfg; cbn [fst].
    - split.
      + unfold busyOf in *. cbn [flat_map app].
        rewrite !flat_map_app, Hpost. now destruct (reply env).
      + eexists (Fetch apiUrl prompt systemPrompt :: _ ++ _). cbn [app].
        now rewrite app_assoc.
    - split; [reflexivity|]. now eexists [_; _].
    - split.
      + unfold busyOf in *. cbn [flat_map app].
        rewrite !flat_map_app, Hpost. now destruct (reply env).
      + eexists (Fetch apiUrl prompt systemPrompt :: _ ++ _). cbn [app].
        now rewrite app_assoc. }
  split; [exact Hbusy|].
  unfold handleSendMessage.
  destruct (negb (truthy (trim (newMessage st)))
            || negb (truthyOpt (userId st))
            || negb (truthyOpt (nickname st)) || isAiProcessing st);
    [now left|].
  pose proof (postMessageToChat_cases env st (trim (newMessage st))
                (userId st)) as Hsend.
  pose proof (Hpost (trim (newMessage st)) (userId st)) as Hquiet.
  destruct (Hbusy (userPromptOf (trim (newMessage st))))
    as (Hb & mid & Hmid).
  cbv zeta in Hsend.
  destruct (postMessageToChat env st (trim (newMessage st)) (userId st))
    as [t [[]|]] eqn:Hrun; cbn [fst] in Hquiet.
  - right. cbn -[getGeminiResponse].
    destruct (getGeminiResponse env st (userPromptOf (trim (newMessage st))))
      as [t' r'] eqn:Hai.
    cbn [fst] in Hb, Hmid. cbn.
    unfold busyOf in *. rewrite flat_map_app, Hquiet. cbn [flat_map app].
    split; [exact Hb|].
    rewrite Hmid, !app_comm_cons, !app_assoc. apply last_snoc.
  - left. cbn. exact Hquiet.
Qed.

(** X14. With a usable configuration [getGeminiResponse] sends one
    request, with the prompt, and tries to add exactly one document, signed
    [Gemini]: the text of the reply; the apology when the reply has no text
    or an empty one; the notice of an error when the request fails, the
    response is not ok or is not JSON. It adds no second document when the
    store refuses the first, and no exception leaves it. *)
Theorem getGeminiResponse_posts (env : Env) (st : AppState) (prompt : string) :
  config env = ConfigReady ->
  snd (getGeminiResponse env st prompt) = Some tt /\
  promptsOf (fst (getGeminiResponse env st prompt)) = [prompt] /\
  exists doc,
    docsOf (fst (getGeminiResponse env st prompt)) = [doc] /\
    doc_userId doc = Some "Gemini" /\
    (userId st <> Some "Gemini" ->
     doc_userNickname doc = Some "Gemini (AI Assistant)") /\
    doc_text doc
    = match reply env with
      | Result (Some (String c s)) => String c s
      | Result _ => "Sorry, I couldn't generate a response at this time."
      | _ => "Error contacting AI service."
      end.
Proof.
  intros Hcfg.
  pose proof (getGeminiResponse_cases env st prompt) as Hai.
  cbv zeta in Hai. rewrite Hcfg in Hai. rewrite Hai. clear Hai.
  set (text := match reply env with
               | Result (Some (String c s)) => String c s
               | Result _ => _
               | _ => _
               end).
  pose proof (postMessageToChat_cases env st text (Some "Gemini")) as Hpost.
  cbv zeta in Hpost. rewrite Hcfg in Hpost. rewrite Hpost. clear Hpost.
  cbn [fst snd]. split; [reflexivity|].
  unfold promptsOf, docsOf. cbn [flat_map app].
  rewrite !flat_map_app. cbn [flat_map app].
  split.
  - destruct (reply env), (addDoc_ok env _); reflexivity.
  - eexists. split.
    + destruct (reply env), (addDoc_ok env _); reflexivity.
    + cbn [doc_userId doc_userNickname doc_text].
      split; [reflexivity|]. split; [|reflexivity].
      intros Hu. destruct (userId st) as [u|]; [|reflexivity].
      cbn [sameId]. destruct (String.eqb_spec "Gemini" u) as [<-|];
        [contradiction|reflexivity].
Qed.

Lemma getGeminiResponse_posts_witness :
  exists doc,
    docsOf (fst (getGeminiResponse
                   {| config := ConfigReady; app_id := None;
                      addDoc_ok := fun _ => false; reply := NotOk |}
                   {| newMessage := "hi"; userId := Some "u1";
                      nickname := Some "Ada"; tempNickname := "";
                      isAuthReady := true; isAiProcessing := false |}
                   "hi")) = [doc] /\
    doc_text doc = "Error contacting AI service." /\
    doc_userNickname doc = Some "Gemini (AI Assistant)".
Proof.
  destruct (getGeminiResponse_posts
              {| config := ConfigReady; app_id := None;
                 addDoc_ok := fun _ => false; reply := NotOk |}
              {| newMessage := "hi"; userId := Some "u1";
                 nickname := Some "Ada"; tempNickname := "";
                 isAuthReady := true; isAiProcessing := false |}
              "hi" eq_refl) as (_ & _ & doc & Hdocs & _ & Hnick & Htext).
  exists doc. split; [exact Hdocs|]. split; [exact Htext|].
  apply Hnick. discriminate.
Defined.

(** X15. A message that passes the guard is handled, with a usable
    configuration, in this order: the trimmed message is added under the
    id and the nickname of the user, the input is cleared, one request is
    sent with the prompt of the message, and one document signed [Gemini]
    is added; no exception leaves the handler. *)
Theorem handleSendMessage_posts (env : Env) (st : AppState) (u n : string) :
  config env = ConfigReady ->
  userId st = Some u -> u <> "" ->
  nickname st = Some n -> n <> "" ->
  trim (newMessage st) <> "" ->
  isAiProcessing st = false ->
  snd (handleSendMessage env st) = Some tt /\
  promptsOf (fst (handleSendMessage env st))
  = [userPromptOf (trim (newMessage st))] /\
  (exists before after,
      fst (handleSendMessage env st)
      = (before ++ SetNewMessage "" :: after)%list /\
      docsOf before = [{| doc_text := trim (newMessage st);
                          doc_userId := Some u;
                          doc_userNickname := Some n |}] /\
      promptsOf before = [] /\
      exists doc, docsOf after = [doc] /\ doc_userId doc = Some "Gemini").
Proof.
  intros Hcfg Hu Hune Hn Hnne Hmsg Hidle.
  destruct (getGeminiResponse_posts env st
              (userPromptOf (trim (newMessage st))) Hcfg)
    as (Hres & Hprompts & doc & Hdocs & Hsender & _).
  pose proof (postMessageToChat_cases env st (trim (newMessage st))
                (userId st)) as Hpost.
  cbv zeta in Hpost. rewrite Hcfg in Hpost.
  unfold handleSendMessage.
  rewrite Hidle, Hu, Hn.
  apply truthy_nonempty in Hmsg, Hune, Hnne.
  cbn [truthyOpt]. rewrite Hmsg, Hune, Hnne. cbn [negb orb].
  rewrite Hu, Hn in Hpost. cbn [sameId] in Hpost.
  rewrite String.eqb_refl in Hpost. rewrite Hpost.
  destruct (getGeminiResponse env st (userPromptOf (trim (newMessage st))))
    as [t r].
  cbn [fst snd] in Hres, Hprompts, Hdocs. subst r.
  set (userDoc := {| doc_text := trim (newMessage st);
                     doc_userId := Some u; doc_userNickname := Some n |}).
  cbn. split; [reflexivity|]. split.
  - unfold promptsOf in *. cbn [flat_map app].
    rewrite flat_map_app. cbn [flat_map app].
    now destruct (addDoc_ok env userDoc).
  - exists (PreventDefault :: AddDoc (messagesPath env) userDoc
              :: (if addDoc_ok env userDoc then []
                  else [ConsoleError "Error adding message:"])), t.
    split; [reflexivity|].
    split; [now destruct (addDoc_ok env userDoc)|].
    split; [now destruct (addDoc_ok env userDoc)|].
    now exists doc.
Qed.

Lemma handleSendMessage_posts_witness :
  promptsOf (fst (handleSendMessage
                    {| config := ConfigReady; app_id := Some "demo";
                       addDoc_ok := fun _ => true;
                       reply := Result (Some "Hello!") |}
                    {| newMessage := "  @Gemini hello  ";
                       userId := Some "u1"; nickname := Some "Ada";
                       tempNickname := ""; isAuthReady := true;
                       isAiProcessing := false |}))
  = ["hello"].
Proof.
  refine (proj1 (proj2 (handleSendMessage_posts
            {| config := ConfigReady; app_id := Some "demo";
               addDoc_ok := fun _ => true; reply := Result (Some "Hello!") |}
            {| newMessage := "  @Gemini hello  ";
               userId := Some "u1"; nickname := Some "Ada";
               tempNickname := ""; isAuthReady := true;
               isAiProcessing := false |}
            "u1" "Ada" eq_refl eq_refl _ eq_refl _ _ eq_refl)));
    discriminate.
Defined.

(** X16. Without a configuration a message that passes the guard is
    stored nowhere, and neither is the reply, yet the input is cleared and
    the request is sent; with a configuration that throws, the exception
    leaves [handleSendMessage] at once: the input is not cleared and no
    request is sent. *)
Theorem handleSendMessage_unconfigured (env : Env) (st : AppState) :
  truthy (trim (newMessage st)) = true ->
  truthyOpt (userId st) = true ->
  truthyOpt (nickname st) = true ->
  isAiProcessing st = false ->
  (config env = ConfigMissing ->
   snd (handleSendMessage env st) = Some tt /\
   docsOf (fst (handleSendMessage env st)) = [] /\
   promptsOf (fst (handleSendMessage env st))
   = [userPromptOf (trim (newMessage st))] /\
   In (SetNewMessage "") (fst (handleSendMessage env st))) /\
  (config env = ConfigBroken ->
   handleSendMessage env st = ([PreventDefault], None)).
Proof.
  intros Hmsg Hu Hn Hidle.
  pose proof (postMessageToChat_cases env st (trim (newMessage st))
                (userId st)) as Hpost.
  pose proof (getGeminiResponse_cases env st
                (userPromptOf (trim (newMessage st)))) as Hai.
  cbv zeta in Hpost, Hai.
  unfold handleSendMessage. rewrite Hmsg, Hu, Hn, Hidle. cbn [negb orb].
  split; intros Hcfg; rewrite Hcfg in Hpost, Hai; rewrite Hpost.
  - rewrite Hai. clear Hai.
    match goal with
    | |- context [postMessageToChat env st ?text (Some "Gemini")] =>
        pose proof (postMessageToChat_cases env st text (Some "Gemini")) as Hreply
    end.
    cbv zeta in Hreply. rewrite Hcfg in Hreply. rewrite Hreply.
    cbn. split; [reflexivity|].
    unfold docsOf, promptsOf. cbn [flat_map app].
    rewrite !flat_map_app. cbn [flat_map app].
    split; [now destruct (reply env)|].
    split; [now destruct (reply env)|tauto].
  - reflexivity.
Qed.

Lemma handleSendMessage_unconfigured_witness :
  handleSendMessage
    {| config := ConfigBroken; app_id := None; addDoc_ok := fun _ => true;
       reply := Result (Some "Hello!") |}
    {| newMessage := "hello"; userId := Some "u1"; nickname := Some "Ada";
       tempNickname := ""; isAuthReady := true; isAiProcessing := false |}
  = ([PreventDefault], None).
Proof.
  apply (proj2 (handleSendMessage_unconfigured
                  {| config := ConfigBroken; app_id := None;
                     addDoc_ok := fun _ => true;
                     reply := Result (Some "Hello!") |}
                  {| newMessage := "hello"; userId := Some "u1";
                     nickname := Some "Ada"; tempNickname := "";
                     isAuthReady := true; isAiProcessing := false |}
                  eq_refl eq_refl eq_refl eq_refl)).
  reflexivity.
Defined.

Local Close Scope string_scope.

(** * The snapshot listener *)

Local Open Scope string_scope.

(** The fields of the message made of a document. *)
Lemma toMessage_fields (doc : QueryDoc) (m : jsobject) :
  toMessage doc = inr m ->
  (qd_data doc !! "id" = None -> m !! "id" = Some (JString (qd_id doc))) /\
  (forall v, qd_data doc !! "id" = Some v -> m !! "id" = Some v) /\
  (forall k, k <> "id" -> k <> "createdAt" -> m !! k = qd_data doc !! k) /\
  (forall t, qd_data doc !! "createdAt" = Some (JTimestamp t) ->
             m !! "createdAt" = Some (JDate t)) /\
  (qd_data doc !! "createdAt" = None
   \/ qd_data doc !! "createdAt" = Some JUndefined
   \/ qd_data doc !! "createdAt" = Some JNull ->
   m !! "createdAt" = Some JUndefined).
Proof.
  unfold toMessage.
  destruct (createdAtDate (qd_data doc)) as [e|d] eqn:Hd; [discriminate|].
  intros [= <-]. split; [|split; [|split; [|split]]].
  - intros Hid. rewrite lookup_insert_ne by discriminate.
    rewrite lookup_union_r by exact Hid. apply lookup_singleton_eq.
  - intros v Hid. rewrite lookup_insert_ne by discriminate.
    now apply lookup_union_Some_l.
  - intros k Hid Hat. rewrite lookup_insert_ne by congruence.
    apply lookup_union_l. apply lookup_singleton_ne. congruence.
  - intros t Ht. rewrite lookup_insert_eq. unfold createdAtDate in Hd.
    rewrite Ht in Hd. now injection Hd as <-.
  - intros Hnone. rewrite lookup_insert_eq. unfold createdAtDate in Hd.
    destruct Hnone as [Hn|[Hn|Hn]]; rewrite Hn in Hd; now injection Hd as <-.
Qed.

(** X17. When the [createdAt] of every document is a Timestamp, null,
    undefined or missing, the listener hands to [setMessages] one message
    per document, in the order of the snapshot. A message has the fields of
    the data of its document, but [createdAt]: a Timestamp becomes its
    date, and a [createdAt] that is null, undefined or missing becomes
    undefined. Its [id] is the id of the document unless the data have a
    field [id], which then takes its place. *)
Theorem fetchedMessages_maps (docs : list QueryDoc) :
  (forall d v, In d docs -> qd_data d !! "createdAt" = Some v ->
               v = JUndefined \/ v = JNull \/ exists t, v = JTimestamp t) ->
  exists ms,
    fetchedMessages docs = inr ms /\
    length ms = length docs /\
    forall (i : nat) d m, docs !! i = Some d -> ms !! i = Some m ->
      (qd_data d !! "id" = None -> m !! "id" = Some (JString (qd_id d))) /\
      (forall v, qd_data d !! "id" = Some v -> m !! "id" = Some v) /\
      (forall k, k <> "id" -> k <> "createdAt" -> m !! k = qd_data d !! k) /\
      (forall t, qd_data d !! "createdAt" = Some (JTimestamp t) ->
                 m !! "createdAt" = Some (JDate t)) /\
      (qd_data d !! "createdAt" = None
       \/ qd_data d !! "createdAt" = Some JUndefined
       \/ qd_data d !! "createdAt" = Some JNull ->
       m !! "createdAt" = Some JUndefined).
Proof.
  induction docs as [|doc docs IH]; intros Hok.
  - exists []. split; [reflexivity|]. split; [reflexivity|].
    intros i d m Hd. discriminate Hd.
  - destruct IH as (ms & Hrun & Hlen & Hfields);
      [intros d v Hin; apply Hok; now right|].
    assert (exists m, toMessage doc = inr m) as [m Hm].
    { unfold toMessage, createdAtDate.
      destruct (qd_data doc !! "createdAt") as [v|] eqn:Hv; [|now eexists].
      destruct (Hok doc v (or_introl eq_refl) Hv) as [->|[->|[t ->]]];
        now eexists. }
    exists (m :: ms). cbn [fetchedMessages]. rewrite Hm, Hrun.
    split; [reflexivity|]. split; [cbn [length]; now rewrite Hlen|].
    intros [|i] d m' Hd Hm'.
    + injection Hd as <-. injection Hm' as <-. now apply toMessage_fields.
    + exact (Hfields i d m' Hd Hm').
Qed.

Lemma fetchedMessages_maps_witness :
  exists ms,
    fetchedMessages
      [ {| qd_id := "a1";
           qd_data := {[ "text" := JString "hi";
                         "createdAt" := JTimestamp 1700000000000 ]} |};
        {| qd_id := "a2";
           qd_data := {[ "text" := JString "yo"; "id" := JNumber 7 ]} |} ]
    = inr ms /\
    length ms = 2%nat /\
    (forall m, ms !! 0%nat = Some m ->
               m !! "id" = Some (JString "a1") /\
               m !! "createdAt" = Some (JDate 1700000000000)) /\
    (forall m, ms !! 1%nat = Some m ->
               m !! "id" = Some (JNumber 7) /\
               m !! "createdAt" = Some JUndefined).
Proof.
  destruct (fetchedMessages_maps
      [ {| qd_id := "a1";
           qd_data := {[ "text" := JString "hi";
                         "createdAt" := JTimestamp 1700000000000 ]} |};
        {| qd_id := "a2";
           qd_data := {[ "text" := JString "yo"; "id" := JNumber 7 ]} |} ])
    as (ms & Hrun & Hlen & Hfields).
  - intros d v [<-|[<-|[]]] Hv; vm_compute in Hv; [|discriminate Hv].
    injection Hv as <-. right. right. now eexists.
  - exists ms. split; [exact Hrun|]. split; [exact Hlen|]. split.
    + intros m Hm.
      destruct (Hfields 0%nat _ m eq_refl Hm) as (Hid & _ & _ & Hdate & _).
      split; [apply Hid; vm_compute; reflexivity|].
      apply Hdate. vm_compute. reflexivity.
    + intros m Hm.
      destruct (Hfields 1%nat _ m eq_refl Hm) as (_ & Hid & _ & _ & Hnone).
      split; [apply Hid; vm_compute; reflexivity|].
      apply Hnone. left. vm_compute. reflexivity.
Defined.

Lemma toMessage_error (doc : QueryDoc) e : toMessage doc = inl e -> e = TypeError.
Proof.
  unfold toMessage, createdAtDate.
  destruct (qd_data doc !! "createdAt") as [[]|]; congruence.
Qed.

Lemma fetchedMessages_error (docs : list QueryDoc) e :
  fetchedMessages docs = inl e -> e = TypeError.
Proof.
  induction docs as [|doc docs IH]; [discriminate|].
  cbn [fetchedMessages].
  destruct (toMessage doc) as [e'|m] eqn:Hm.
  - intros [= <-]. exact (toMessage_error _ _ Hm).
  - destruct (fetchedMessages docs) as [e'|ms]; [|discriminate].
    intros [= <-]. now apply IH.
Qed.

(** X18. The listener fails with a [TypeError], and hands nothing to
    [setMessages], exactly when the [createdAt] of some document is a
    value without [toDate]: a boolean, a number, a string, a date or
    another object; it fails with no other exception. *)
Theorem fetchedMessages_TypeError (docs : list QueryDoc) :
  (fetchedMessages docs = inl TypeError
   <-> exists d v,
         In d docs /\ qd_data d !! "createdAt" = Some v /\
         v <> JUndefined /\ v <> JNull /\ forall t, v <> JTimestamp t) /\
  (forall e, fetchedMessages docs = inl e -> e = TypeError).
Proof.
  split; [|intros e; apply fetchedMessages_error].
  split.
  - induction docs as [|doc docs IH]; intros He; [discriminate|].
    cbn [fetchedMessages] in He.
    destruct (toMessage doc) as [e'|m] eqn:Hm.
    + exists doc. unfold toMessage, createdAtDate in Hm.
      destruct (qd_data doc !! "createdAt") as [v|] eqn:Hv; [|discriminate].
      exists v. split; [now left|]. split; [reflexivity|].
      destruct v; try discriminate; repeat split; discriminate.
    + destruct (fetchedMessages docs) as [e'|ms] eqn:Hrest; [|discriminate].
      destruct IH as (d & v & Hin & Hrest');
        [now rewrite (fetchedMessages_error _ _ Hrest)|].
      exists d, v. split; [now right|exact Hrest'].
  - intros (d & v & Hin & Hv & Hu & Hn & Ht).
    destruct (fetchedMessages docs) as [e|ms] eqn:Hrun;
      [now rewrite (fetchedMessages_error _ _ Hrun)|].
    exfalso. revert ms Hrun.
    induction docs as [|doc docs IH]; intros ms Hrun; [destruct Hin|].
    cbn [fetchedMessages] in Hrun.
    destruct (toMessage doc) as [e'|m] eqn:Hm; [discriminate|].
    destruct (fetchedMessages docs) as [e'|ms'] eqn:Hrest; [discriminate|].
    destruct Hin as [<-|Hin]; [|exact (IH Hin ms' eq_refl)].
    unfold toMessage, createdAtDate in Hm. rewrite Hv in Hm.
    destruct v; try discriminate; try contradiction.
    exact (Ht date eq_refl).
Qed.

Lemma fetchedMessages_TypeError_witness :
  fetchedMessages
    [ {| qd_id := "a1";
         qd_data := {[ "text" := JString "hi";
                       "createdAt" := JTimestamp 1700000000000 ]} |};
      {| qd_id := "a2";
         qd_data := {[ "createdAt" := JString "yesterday" ]} |} ]
  = inl TypeError.
Proof.
  apply (proj1 (fetchedMessages_TypeError _)).
  exists {| qd_id := "a2";
            qd_data := {[ "createdAt" := JString "yesterday" ]} |},
         (JString "yesterday").
  split; [right; left; reflexivity|].
  split; [vm_compute; reflexivity|].
  repeat split; discriminate.
Defined.

Local Close Scope string_scope.
